(** * ShadowLedger: a shallow embedding of the ledger contract

    The contract [ShadowLedger] (Solidity, fhEVM) keeps departments, financial
    records with encrypted amounts, and an access-control list of decrypt
    grants.  This development embeds its storage, its modifiers and every
    external function as executable Rocq definitions in a state-and-revert
    monad, and proves properties of the embedding. *)

From stdpp Require Import gmap strings list fin_maps sets sorting.
From Stdlib Require Import NArith ZArith Lia.

Local Open Scope N_scope.

(** ** Machine types *)

Abbreviation address := N (only parsing).
Abbreviation uint256 := N (only parsing).
Abbreviation bytes := (list Byte.byte) (only parsing).

Definition max_uint256 : N := 2 ^ 256 - 1.
Definition max_uint64 : N := 2 ^ 64 - 1.
Definition two128 : N := 2 ^ 128.
Arguments max_uint256 : simpl never.
Arguments max_uint64 : simpl never.
Arguments two128 : simpl never.

(** ** Encrypted handles *)

(** Modelled from the spec: the encryption service ([FHE], section 6 of the
    specification) is an external library that is not part of the sources.
    A handle is derived deterministically from the operation that produced
    it, so a handle is represented by the term of that operation:
    [Uninitialized] is the all-zero handle of a storage slot never written,
    [Trivial v] is [FHE.asEuint128(v)], [Verified h] is an externally
    supplied ciphertext handle accepted by [FHE.fromExternal], and [FheAdd],
    [FheSub] are the homomorphic operators. *)
Inductive euint128 : Type :=
  | Uninitialized
  | Trivial (v : N)
  | Verified (h : N)
  | FheAdd (a b : euint128)
  | FheSub (a b : euint128).

Global Instance euint128_eq_dec : EqDecision euint128.
Proof. solve_decision. Defined.

Fixpoint euint128_enc (e : euint128) : gen_tree N :=
  match e with
  | Uninitialized => GenNode 0 []
  | Trivial v => GenNode 1 [GenLeaf v]
  | Verified h => GenNode 2 [GenLeaf h]
  | FheAdd a b => GenNode 3 [euint128_enc a; euint128_enc b]
  | FheSub a b => GenNode 4 [euint128_enc a; euint128_enc b]
  end.

Fixpoint euint128_dec (t : gen_tree N) : euint128 :=
  match t with
  | GenNode 1 [GenLeaf v] => Trivial v
  | GenNode 2 [GenLeaf h] => Verified h
  | GenNode 3 [a; b] => FheAdd (euint128_dec a) (euint128_dec b)
  | GenNode 4 [a; b] => FheSub (euint128_dec a) (euint128_dec b)
  | _ => Uninitialized
  end.

Lemma euint128_dec_enc (e : euint128) : euint128_dec (euint128_enc e) = e.
Proof. induction e; simpl; congruence. Qed.

Global Instance euint128_countable : Countable euint128 :=
  inj_countable' euint128_enc euint128_dec euint128_dec_enc.

(** ** Contract data types *)

Inductive RecordType : Type := Income | Expense.

Global Instance RecordType_eq_dec : EqDecision RecordType.
Proof. solve_decision. Defined.

Definition RecordType_eqb (a b : RecordType) : bool :=
  match a, b with
  | Income, Income | Expense, Expense => true
  | _, _ => false
  end.

Record Record_ : Type := mkRecord {
  r_id : uint256;
  recordType : RecordType;
  amount : euint128;
  r_departmentId : uint256;
  r_projectId : uint256;
  description : string;
  timestamp : uint256;
  creator : address;
  r_exists : bool
}.

Record Department : Type := mkDepartment {
  d_id : uint256;
  name : string;
  members : list address;
  admin : address;
  createdAt : uint256;
  d_exists : bool
}.

Record Calculation : Type := mkCalculation {
  c_id : uint256;
  calculationType : RecordType;
  result : euint128;
  c_departmentIds : list uint256;
  projectIds : list uint256;
  c_timestamp : uint256;
  c_exists : bool
}.

(** The value read from a mapping slot that was never written. *)
Definition zeroRecord : Record_ :=
  mkRecord 0 Income Uninitialized 0 0 EmptyString 0 0 false.
Definition zeroDepartment : Department :=
  mkDepartment 0 EmptyString [] 0 0 false.

(** ** Storage *)

(** The contract's storage variables, under their source names, together
    with [acl], the persisted (handle, account) allowances that [FHE.allow]
    and [FHE.allowThis] write. *)
Record Storage : Type := mkStorage {
  _recordCounter : uint256;
  _departmentCounter : uint256;
  _calculationCounter : uint256;
  _records : gmap N Record_;
  _departments : gmap N Department;
  _calculations : gmap N Calculation;
  _userDepartments : gmap N (list N);
  _departmentAdmins : gmap N N;
  _auditors : gmap N bool;
  _systemAdmin : address;
  acl : gset (euint128 * N)
}.

Definition set_recordCounter (v : uint256) (s : Storage) : Storage :=
  mkStorage v (_departmentCounter s) (_calculationCounter s) (_records s)
    (_departments s) (_calculations s) (_userDepartments s)
    (_departmentAdmins s) (_auditors s) (_systemAdmin s) (acl s).
Definition set_departmentCounter (v : uint256) (s : Storage) : Storage :=
  mkStorage (_recordCounter s) v (_calculationCounter s) (_records s)
    (_departments s) (_calculations s) (_userDepartments s)
    (_departmentAdmins s) (_auditors s) (_systemAdmin s) (acl s).
Definition set_calculationCounter (v : uint256) (s : Storage) : Storage :=
  mkStorage (_recordCounter s) (_departmentCounter s) v (_records s)
    (_departments s) (_calculations s) (_userDepartments s)
    (_departmentAdmins s) (_auditors s) (_systemAdmin s) (acl s).
Definition set_records (v : gmap N Record_) (s : Storage) : Storage :=
  mkStorage (_recordCounter s) (_departmentCounter s) (_calculationCounter s) v
    (_departments s) (_calculations s) (_userDepartments s)
    (_departmentAdmins s) (_auditors s) (_systemAdmin s) (acl s).
Definition set_departments (v : gmap N Department) (s : Storage) : Storage :=
  mkStorage (_recordCounter s) (_departmentCounter s) (_calculationCounter s)
    (_records s) v (_calculations s) (_userDepartments s)
    (_departmentAdmins s) (_auditors s) (_systemAdmin s) (acl s).
Definition set_calculations (v : gmap N Calculation) (s : Storage) : Storage :=
  mkStorage (_recordCounter s) (_departmentCounter s) (_calculationCounter s)
    (_records s) (_departments s) v (_userDepartments s)
    (_departmentAdmins s) (_auditors s) (_systemAdmin s) (acl s).
Definition set_userDepartments (v : gmap N (list N)) (s : Storage) : Storage :=
  mkStorage (_recordCounter s) (_departmentCounter s) (_calculationCounter s)
    (_records s) (_departments s) (_calculations s) v
    (_departmentAdmins s) (_auditors s) (_systemAdmin s) (acl s).
Definition set_departmentAdmins (v : gmap N N) (s : Storage) : Storage :=
  mkStorage (_recordCounter s) (_departmentCounter s) (_calculationCounter s)
    (_records s) (_departments s) (_calculations s) (_userDepartments s)
    v (_auditors s) (_systemAdmin s) (acl s).
Definition set_auditors (v : gmap N bool) (s : Storage) : Storage :=
  mkStorage (_recordCounter s) (_departmentCounter s) (_calculationCounter s)
    (_records s) (_departments s) (_calculations s) (_userDepartments s)
    (_departmentAdmins s) v (_systemAdmin s) (acl s).
Definition set_acl (v : gset (euint128 * N)) (s : Storage) : Storage :=
  mkStorage (_recordCounter s) (_departmentCounter s) (_calculationCounter s)
    (_records s) (_departments s) (_calculations s) (_userDepartments s)
    (_departmentAdmins s) (_auditors s) (_systemAdmin s) v.

(** Mapping reads: an absent key reads as the zero value. *)
Definition record_at (s : Storage) (i : uint256) : Record_ :=
  default zeroRecord (_records s !! i).
Definition department_at (s : Storage) (i : uint256) : Department :=
  default zeroDepartment (_departments s !! i).
Definition userDepartments_at (s : Storage) (u : address) : list N :=
  default [] (_userDepartments s !! u).
Definition departmentAdmin_at (s : Storage) (i : uint256) : address :=
  default 0 (_departmentAdmins s !! i).
Definition auditor_at (s : Storage) (u : address) : bool :=
  default false (_auditors s !! u).

(** ** The transaction monad *)

(** A function body runs on the storage and either returns or reverts.  The
    storage component of a reverted run is the storage as the body left it
    when it stopped; [transact] below is what the execution environment does
    with it. *)
Inductive outcome (A : Type) : Type :=
  | Ok (a : A)
  | Revert (reason : string).
Arguments Ok {A} a.
Arguments Revert {A} reason.

Definition M (A : Type) : Type := Storage -> outcome A * Storage.

Definition ret {A} (a : A) : M A := fun s => (Ok a, s).
Definition bind {A B} (m : M A) (k : A -> M B) : M B :=
  fun s => match m s with
           | (Ok a, s') => k a s'
           | (Revert e, s') => (Revert e, s')
           end.
Definition get : M Storage := fun s => (Ok s, s).
Definition modify (f : Storage -> Storage) : M unit := fun s => (Ok tt, f s).
Definition revert {A} (reason : string) : M A := fun s => (Revert reason, s).
Definition require (b : bool) (reason : string) : M unit :=
  if b then ret tt else revert reason.

Notation "x <- m ;; k" := (bind m (fun x => k))
  (at level 100, m at next level, right associativity).
Notation "m ;; k" := (bind m (fun _ => k))
  (at level 100, right associativity).

(** Checked arithmetic of Solidity 0.8: [x++] panics on overflow. *)
Definition checked_incr (x : uint256) : M uint256 :=
  if x <? max_uint256 then ret (x + 1) else revert "Panic(0x11)".

(** [new uint256[](n)]: a memory array of [n] zero entries.  The compiler
    guards the allocation: a length above [2^64 - 1] panics. *)
Definition new_array (n : uint256) : M (list uint256) :=
  if n <=? max_uint64 then ret (replicate (N.to_nat n) 0)
  else revert "Panic(0x41)".

(** [for (uint256 i = i0; i <= hi && cond(a); i++) a = body(i, a)].  The
    recursion is on [fuel], an upper bound on the number of iterations. *)
Fixpoint for_upto {A} (fuel : nat) (i hi : uint256) (cond : A -> bool)
    (body : uint256 -> A -> M A) (a : A) : M A :=
  match fuel with
  | O => ret a
  | S fuel' =>
      if (i <=? hi) && cond a then
        a' <- body i a ;;
        i' <- checked_incr i ;;
        for_upto fuel' i' hi cond body a'
      else ret a
  end.

(** The call context supplied by the execution environment. *)
Record Msg : Type := mkMsg {
  sender : address;
  block_timestamp : uint256
}.

(** ** Array helpers *)

(** [for (i = 0; i < a.length; i++) if (a[i] == x) return true;] *)
Fixpoint array_contains (x : N) (a : list N) : bool :=
  match a with
  | [] => false
  | y :: a' => if y =? x then true else array_contains x a'
  end.

(** Index of the first element equal to [x], counting from [i]: where the
    removal loops of [removeDepartmentMember] hit their [break]. *)
Fixpoint find_index (x : N) (a : list N) (i : nat) : option nat :=
  match a with
  | [] => None
  | y :: a' => if y =? x then Some i else find_index x a' (S i)
  end.

(** [a[i] = a[a.length - 1]; a.pop();] *)
Definition swap_and_pop (i : nat) (a : list N) : list N :=
  match last a with
  | Some y => take (length a - 1) (<[i:=y]> a)
  | None => a
  end.

(** The whole removal loop: overwrite the first occurrence with the last
    element and pop; nothing happens when [x] does not occur. *)
Definition remove_first (x : N) (a : list N) : list N :=
  match find_index x a 0 with
  | Some i => swap_and_pop i a
  | None => a
  end.

Definition set_members (l : list N) (d : Department) : Department :=
  mkDepartment (d_id d) (name d) l (admin d) (createdAt d) (d_exists d).

(** Granting twice is granting once. *)
Lemma grant_twice (x : euint128 * N) (X : gset (euint128 * N)) :
  {[ x ]} ∪ ({[ x ]} ∪ X) = {[ x ]} ∪ X.
Proof. by rewrite (assoc_L (∪)), (idemp_L (∪)). Qed.

(** The storage before the constructor runs: every slot is zero. *)
Definition zeroStorage : Storage :=
  mkStorage 0 0 0 ∅ ∅ ∅ ∅ ∅ ∅ 0 ∅.

Section ShadowLedger.

Set Default Proof Using "Type".

(** The address of the deployed contract, and the two facts about the
    encryption service the contract cannot see: which externally supplied
    ciphertexts carry a valid proof for a given contract and user, and the
    plaintext behind a ciphertext handle. *)
Variable this : address.
Variable inputVerifier : N -> bytes -> address -> address -> bool.
Variable cleartext : N -> N.

(** *** The encryption service *)

(** Modelled from the spec: [asZero], [add] and [sub] of the encryption
    service, which return the handle of the operation. *)
Definition FHE_asEuint128 (v : N) : euint128 := Trivial v.
Definition FHE_add (a b : euint128) : euint128 := FheAdd a b.
Definition FHE_sub (a b : euint128) : euint128 := FheSub a b.

(** Modelled from the spec: [fromExternal] converts an externally supplied
    ciphertext into a handle, or fails the whole operation when the
    inclusion proof does not verify. *)
Definition FHE_fromExternal (msg : Msg) (h : N) (inputProof : bytes) : M euint128 :=
  if inputVerifier h inputProof this (sender msg) then ret (Verified h)
  else revert "InvalidProof".

(** Modelled from the spec: [grant] and [grantToSelf] add a pair to the
    grant relation; granting twice is a no-op, and nothing is ever removed. *)
Definition FHE_allow (h : euint128) (account : address) : M unit :=
  modify (fun s => set_acl ({[ (h, account) ]} ∪ acl s) s).
Definition FHE_allowThis (h : euint128) : M unit := FHE_allow h this.

(** Modelled from the spec: the plaintext a holder of a grant obtains from
    [userDecrypt].  The encrypted integers are unsigned and 128 bits wide,
    and their arithmetic wraps around. *)
Fixpoint decrypt (e : euint128) : N :=
  match e with
  | Uninitialized => 0
  | Trivial v => v mod two128
  | Verified h => cleartext h mod two128
  | FheAdd a b => (decrypt a + decrypt b) mod two128
  | FheSub a b => (decrypt a + two128 - decrypt b) mod two128
  end.

(** Whether [account] holds a grant on [h]. *)
Definition isAllowed (s : Storage) (h : euint128) (account : address) : bool :=
  bool_decide ((h, account) ∈ acl s).

(** *** Membership predicate and modifiers *)

Definition _isDepartmentMember (s : Storage) (user : address)
    (departmentId : uint256) : bool :=
  if negb (d_exists (department_at s departmentId)) then false
  else if admin (department_at s departmentId) =? user then true
  else array_contains user (members (department_at s departmentId)).

Definition onlySystemAdmin (msg : Msg) : M unit :=
  s <- get ;;
  require (sender msg =? _systemAdmin s) "ShadowLedger: only system admin".

Definition onlyDepartmentAdmin (msg : Msg) (departmentId : uint256) : M unit :=
  s <- get ;;
  require (departmentAdmin_at s departmentId =? sender msg)
    "ShadowLedger: only department admin".

Definition onlyDepartmentMember (msg : Msg) (departmentId : uint256) : M unit :=
  s <- get ;;
  require (_isDepartmentMember s (sender msg) departmentId)
    "ShadowLedger: only department member".

Definition onlyAuditor (msg : Msg) : M unit :=
  s <- get ;;
  require (auditor_at s (sender msg)) "ShadowLedger: only auditor".

Definition validDepartment (departmentId : uint256) : M unit :=
  s <- get ;;
  require (d_exists (department_at s departmentId))
    "ShadowLedger: invalid department".

Definition validRecord (recordId : uint256) : M unit :=
  s <- get ;;
  require (r_exists (record_at s recordId)) "ShadowLedger: invalid record".

(** *** Constructor *)

Definition constructor (msg : Msg) : Storage :=
  mkStorage 0 1 0 ∅
    (<[1 := mkDepartment 1 "System" [] (sender msg) (block_timestamp msg) true]> ∅)
    ∅ ∅ (<[1 := sender msg]> ∅) ∅ (sender msg) ∅.

(** *** Department registry *)

Definition createDepartment (msg : Msg) (name : string) (admin : address)
    : M uint256 :=
  onlySystemAdmin msg ;;
  require (negb (String.length name =? 0)%nat) "ShadowLedger: empty name" ;;
  require (negb (admin =? 0)) "ShadowLedger: invalid admin" ;;
  s <- get ;;
  departmentId <- checked_incr (_departmentCounter s) ;;
  modify (set_departmentCounter departmentId) ;;
  let members := [admin] in
  modify (fun s => set_departments
    (<[departmentId := mkDepartment departmentId name members admin
                         (block_timestamp msg) true]> (_departments s)) s) ;;
  modify (fun s => set_departmentAdmins
    (<[departmentId := admin]> (_departmentAdmins s)) s) ;;
  modify (fun s => set_userDepartments
    (<[admin := userDepartments_at s admin ++ [departmentId]]>
       (_userDepartments s)) s) ;;
  ret departmentId.

Definition addDepartmentMember (msg : Msg) (departmentId : uint256)
    (member : address) : M unit :=
  onlyDepartmentAdmin msg departmentId ;;
  validDepartment departmentId ;;
  require (negb (member =? 0)) "ShadowLedger: invalid member" ;;
  s <- get ;;
  require (negb (_isDepartmentMember s member departmentId))
    "ShadowLedger: already member" ;;
  modify (fun s => set_departments
    (<[departmentId :=
         set_members (members (department_at s departmentId) ++ [member])
           (department_at s departmentId)]> (_departments s)) s) ;;
  modify (fun s => set_userDepartments
    (<[member := userDepartments_at s member ++ [departmentId]]>
       (_userDepartments s)) s).

Definition removeDepartmentMember (msg : Msg) (departmentId : uint256)
    (member : address) : M unit :=
  onlyDepartmentAdmin msg departmentId ;;
  validDepartment departmentId ;;
  s <- get ;;
  require (_isDepartmentMember s member departmentId)
    "ShadowLedger: not a member" ;;
  require (negb (member =? admin (department_at s departmentId)))
    "ShadowLedger: cannot remove admin" ;;
  modify (fun s => set_departments
    (<[departmentId :=
         set_members (remove_first member (members (department_at s departmentId)))
           (department_at s departmentId)]> (_departments s)) s) ;;
  modify (fun s => set_userDepartments
    (<[member := remove_first departmentId (userDepartments_at s member)]>
       (_userDepartments s)) s).

Definition getDepartment (departmentId : uint256)
    : M (uint256 * string * list address * address * uint256) :=
  validDepartment departmentId ;;
  s <- get ;;
  let dept := department_at s departmentId in
  ret (d_id dept, name dept, members dept, admin dept, createdAt dept).

Definition getUserDepartments (user : address) : M (list uint256) :=
  s <- get ;; ret (userDepartments_at s user).

(** *** Record store *)

Definition createRecord (msg : Msg) (recordType : RecordType)
    (encryptedAmount : N) (inputProof : bytes) (departmentId projectId : uint256)
    (description : string) : M uint256 :=
  onlyDepartmentMember msg departmentId ;;
  validDepartment departmentId ;;
  require (negb (String.length description =? 0)%nat)
    "ShadowLedger: empty description" ;;
  amount <- FHE_fromExternal msg encryptedAmount inputProof ;;
  s <- get ;;
  recordId <- checked_incr (_recordCounter s) ;;
  modify (set_recordCounter recordId) ;;
  modify (fun s => set_records
    (<[recordId := mkRecord recordId recordType amount departmentId projectId
                     description (block_timestamp msg) (sender msg) true]>
       (_records s)) s) ;;
  FHE_allowThis amount ;;
  FHE_allow amount (sender msg) ;;
  s <- get ;;
  (if departmentAdmin_at s departmentId =? sender msg
   then FHE_allow amount (sender msg)
   else ret tt) ;;
  ret recordId.

Definition getRecord (msg : Msg) (recordId : uint256) : M Record_ :=
  validRecord recordId ;;
  s <- get ;;
  let record := record_at s recordId in
  require (_isDepartmentMember s (sender msg) (r_departmentId record)
           || auditor_at s (sender msg))
    "ShadowLedger: access denied" ;;
  ret record.

(** The paginated scan shared, up to the filter, by [getDepartmentRecords]
    and [getAllRecords].  The loop state is [(recordIds, count, skipped)];
    [skipped++] and [count++] sit under [skipped < offset] and
    [count < limit] and cannot overflow. *)
Definition scan_body (matches : Record_ -> bool) (offset : uint256)
    (i : uint256) (st : list uint256 * uint256 * uint256)
    : M (list uint256 * uint256 * uint256) :=
  s <- get ;;
  let '(recordIds, count, skipped) := st in
  if matches (record_at s i) then
    if skipped <? offset then ret (recordIds, count, skipped + 1)
    else ret (<[N.to_nat count := i]> recordIds, count + 1, skipped)
  else ret st.

(** [recordIds] is allocated with [limit] entries before the scan and
    [result] with [count] entries after it; the final loop, which copies the
    first [count] entries of [recordIds] into the [count] entries of
    [result], is [take]. *)
Definition scan_records (matches : Record_ -> bool) (offset limit : uint256)
    : M (list uint256) :=
  recordIds <- new_array limit ;;
  s <- get ;;
  st <- for_upto (N.to_nat (_recordCounter s)) 1 (_recordCounter s)
          (fun st => snd (fst st) <? limit)
          (scan_body matches offset) (recordIds, 0, 0) ;;
  let '(recordIds, count, _) := st in
  new_array count ;;
  ret (take (N.to_nat count) recordIds).

Definition getDepartmentRecords (msg : Msg) (departmentId offset limit : uint256)
    : M (list uint256) :=
  onlyDepartmentMember msg departmentId ;;
  validDepartment departmentId ;;
  scan_records
    (fun r => r_exists r && (r_departmentId r =? departmentId))
    offset limit.

Definition getAllRecords (msg : Msg) (offset limit : uint256)
    : M (list uint256) :=
  onlyAuditor msg ;;
  scan_records (fun r => r_exists r) offset limit.

(** *** Aggregation engine *)

(** [for (i = 0; i < departmentIds.length; i++)
      require(_departments[departmentIds[i]].exists, ...)] *)
Fixpoint require_departments (departmentIds : list uint256) : M unit :=
  match departmentIds with
  | [] => ret tt
  | deptId :: rest =>
      s <- get ;;
      require (d_exists (department_at s deptId))
        "ShadowLedger: invalid department" ;;
      require_departments rest
  end.

(** One iteration of the accumulation loop.  [calculateTotalIncome] and
    [calculateTotalExpense] have the same body up to the record type they
    select, which is the parameter [wanted]. *)
Definition total_body (wanted : RecordType) (departmentIds : list uint256)
    (projectId : uint256) (j : uint256) (total : euint128) : M euint128 :=
  s <- get ;;
  if r_exists (record_at s j) then
    let record := record_at s j in
    let matchesDept := array_contains (r_departmentId record) departmentIds in
    let matchesProject :=
      (projectId =? 0) || (r_projectId record =? projectId) in
    let isWanted := RecordType_eqb (recordType record) wanted in
    if matchesDept && matchesProject && isWanted
    then ret (FHE_add total (amount record))
    else ret total
  else ret total.

Definition calculateTotal (wanted : RecordType) (msg : Msg)
    (departmentIds : list uint256) (projectId : uint256) : M euint128 :=
  let total := FHE_asEuint128 0 in
  require_departments departmentIds ;;
  s <- get ;;
  total <- for_upto (N.to_nat (_recordCounter s)) 1 (_recordCounter s)
             (fun _ => true) (total_body wanted departmentIds projectId) total ;;
  FHE_allowThis total ;;
  FHE_allow total (sender msg) ;;
  ret total.

Definition calculateTotalIncome := calculateTotal Income.
Definition calculateTotalExpense := calculateTotal Expense.

(** [this.calculateTotalIncome(...)] is a message call of the contract to
    itself: inside it the sender is the contract. *)
Definition calculateNetIncome (msg : Msg) (departmentIds : list uint256)
    (projectId : uint256) : M euint128 :=
  let self := mkMsg this (block_timestamp msg) in
  totalIncome <- calculateTotalIncome self departmentIds projectId ;;
  totalExpense <- calculateTotalExpense self departmentIds projectId ;;
  let netIncome := FHE_sub totalIncome totalExpense in
  FHE_allowThis netIncome ;;
  FHE_allow netIncome (sender msg) ;;
  ret netIncome.

(** *** Calculation log *)

Definition saveCalculation (msg : Msg) (calculationType : RecordType)
    (encryptedResult : N) (inputProof : bytes)
    (departmentIds projectIds : list uint256) (description : string)
    : M uint256 :=
  result <- FHE_fromExternal msg encryptedResult inputProof ;;
  s <- get ;;
  calculationId <- checked_incr (_calculationCounter s) ;;
  modify (set_calculationCounter calculationId) ;;
  modify (fun s => set_calculations
    (<[calculationId := mkCalculation calculationId calculationType result
                          departmentIds projectIds (block_timestamp msg) true]>
       (_calculations s)) s) ;;
  FHE_allowThis result ;;
  FHE_allow result (sender msg) ;;
  ret calculationId.

(** *** Auditors *)

Definition grant_body (auditor : address) (i : uint256) (_ : unit) : M unit :=
  s <- get ;;
  if r_exists (record_at s i) then FHE_allow (amount (record_at s i)) auditor
  else ret tt.

Definition addAuditor (msg : Msg) (auditor : address) : M unit :=
  onlySystemAdmin msg ;;
  require (negb (auditor =? 0)) "ShadowLedger: invalid auditor" ;;
  s <- get ;;
  require (negb (auditor_at s auditor)) "ShadowLedger: already auditor" ;;
  modify (fun s => set_auditors (<[auditor := true]> (_auditors s)) s) ;;
  s <- get ;;
  for_upto (N.to_nat (_recordCounter s)) 1 (_recordCounter s)
    (fun _ => true) (grant_body auditor) tt.

Definition removeAuditor (msg : Msg) (auditor : address) : M unit :=
  onlySystemAdmin msg ;;
  s <- get ;;
  require (auditor_at s auditor) "ShadowLedger: not an auditor" ;;
  modify (fun s => set_auditors (<[auditor := false]> (_auditors s)) s).

Definition isAuditor (auditor : address) : M bool :=
  s <- get ;; ret (auditor_at s auditor).

Definition getRecordCount : M uint256 := s <- get ;; ret (_recordCounter s).
Definition getDepartmentCount : M uint256 :=
  s <- get ;; ret (_departmentCounter s).

(** *** Transactions *)

(** The external functions of the contract, as calls with their arguments. *)
Inductive Call : Type :=
  | CreateDepartment (name : string) (admin : address)
  | AddDepartmentMember (departmentId : uint256) (member : address)
  | RemoveDepartmentMember (departmentId : uint256) (member : address)
  | GetDepartment (departmentId : uint256)
  | GetUserDepartments (user : address)
  | CreateRecord (recordType : RecordType) (encryptedAmount : N)
      (inputProof : bytes) (departmentId projectId : uint256)
      (description : string)
  | GetRecord (recordId : uint256)
  | GetDepartmentRecords (departmentId offset limit : uint256)
  | GetAllRecords (offset limit : uint256)
  | CalculateTotalIncome (departmentIds : list uint256) (projectId : uint256)
  | CalculateTotalExpense (departmentIds : list uint256) (projectId : uint256)
  | CalculateNetIncome (departmentIds : list uint256) (projectId : uint256)
  | SaveCalculation (calculationType : RecordType) (encryptedResult : N)
      (inputProof : bytes) (departmentIds projectIds : list uint256)
      (description : string)
  | AddAuditor (auditor : address)
  | RemoveAuditor (auditor : address)
  | IsAuditor (auditor : address)
  | GetRecordCount
  | GetDepartmentCount.

(** What a call returns. *)
Inductive Value : Type :=
  | VUnit
  | VUint (n : uint256)
  | VBool (b : bool)
  | VHandle (h : euint128)
  | VIds (ids : list uint256)
  | VDepartment (d : uint256 * string * list address * address * uint256)
  | VRecord (r : Record_).

Definition fmapM {A B} (f : A -> B) (m : M A) : M B := a <- m ;; ret (f a).

Definition exec (msg : Msg) (c : Call) : M Value :=
  match c with
  | CreateDepartment name admin => fmapM VUint (createDepartment msg name admin)
  | AddDepartmentMember d m => fmapM (fun _ => VUnit) (addDepartmentMember msg d m)
  | RemoveDepartmentMember d m =>
      fmapM (fun _ => VUnit) (removeDepartmentMember msg d m)
  | GetDepartment d => fmapM VDepartment (getDepartment d)
  | GetUserDepartments u => fmapM VIds (getUserDepartments u)
  | CreateRecord ty enc proof d p desc =>
      fmapM VUint (createRecord msg ty enc proof d p desc)
  | GetRecord r => fmapM VRecord (getRecord msg r)
  | GetDepartmentRecords d off lim =>
      fmapM VIds (getDepartmentRecords msg d off lim)
  | GetAllRecords off lim => fmapM VIds (getAllRecords msg off lim)
  | CalculateTotalIncome ds p => fmapM VHandle (calculateTotalIncome msg ds p)
  | CalculateTotalExpense ds p => fmapM VHandle (calculateTotalExpense msg ds p)
  | CalculateNetIncome ds p => fmapM VHandle (calculateNetIncome msg ds p)
  | SaveCalculation ty enc proof ds ps desc =>
      fmapM VUint (saveCalculation msg ty enc proof ds ps desc)
  | AddAuditor a => fmapM (fun _ => VUnit) (addAuditor msg a)
  | RemoveAuditor a => fmapM (fun _ => VUnit) (removeAuditor msg a)
  | IsAuditor a => fmapM VBool (isAuditor a)
  | GetRecordCount => fmapM VUint getRecordCount
  | GetDepartmentCount => fmapM VUint getDepartmentCount
  end.

(** The execution environment applies a call atomically: the storage a
    reverted body leaves behind is discarded and the storage is the one
    the call started from. *)
Definition transact {A} (m : M A) (s : Storage) : outcome A * Storage :=
  match m s with
  | (Ok a, s') => (Ok a, s')
  | (Revert e, _) => (Revert e, s)
  end.

(** The states of a deployed contract: the constructor's, and whatever a
    transaction by any sender makes of a reachable state. *)
Inductive reachable : Storage -> Prop :=
  | reachable_deploy (msg : Msg) : reachable (constructor msg)
  | reachable_call (s : Storage) (msg : Msg) (c : Call) :
      reachable s -> reachable (snd (transact (exec msg c) s)).

(** ** Basic facts *)

Ltac monad_unfold :=
  repeat (progress (unfold bind, ret, get, modify, require, revert, fmapM,
                      checked_incr in *; cbv beta iota in *)).

Ltac unfold_modifiers :=
  unfold onlySystemAdmin, onlyDepartmentAdmin, onlyDepartmentMember,
    onlyAuditor, validDepartment, validRecord in *.

Lemma transact_ok {A} (m : M A) (s s' : Storage) (a : A) :
  m s = (Ok a, s') -> transact m s = (Ok a, s').
Proof. intros H. unfold transact. by rewrite H. Qed.

Lemma transact_revert {A} (m : M A) (s s' : Storage) (e : string) :
  m s = (Revert e, s') -> transact m s = (Revert e, s).
Proof. intros H. unfold transact. by rewrite H. Qed.

Lemma array_contains_elem_of (x : N) (a : list N) :
  array_contains x a = true <-> x ∈ a.
Proof.
  induction a as [|y a IH]; simpl.
  - split; [discriminate | by intros ?%elem_of_nil].
  - destruct (N.eqb_spec y x) as [->|Hne].
    + split; [intros _; left | done].
    + rewrite IH. split; [by right |].
      intros [?|?]%elem_of_cons; [congruence | done].
Qed.

(** ** Reasoning about monadic code *)

(** [readonly m]: [m] never writes, whether it returns or reverts. *)
Definition readonly {A} (m : M A) : Prop := forall s, snd (m s) = s.

(** [total m]: [m] never reverts. *)
Definition total {A} (m : M A) : Prop := forall s, exists a, fst (m s) = Ok a.

(** [fails_clean m]: when [m] reverts, it has not written anything yet. *)
Definition fails_clean {A} (m : M A) : Prop :=
  forall s e s', m s = (Revert e, s') -> s' = s.

(** [keeps f m]: the part [f] of the storage is the same after [m]. *)
Definition keeps {X A} (f : Storage -> X) (m : M A) : Prop :=
  forall s, f (snd (m s)) = f s.

Lemma readonly_ret {A} (a : A) : readonly (ret a).
Proof. by intros s. Qed.
Lemma readonly_get : readonly get.
Proof. by intros s. Qed.
Lemma readonly_revert {A} (e : string) : readonly (@revert A e).
Proof. by intros s. Qed.
Lemma readonly_require (b : bool) (e : string) : readonly (require b e).
Proof. intros s. by destruct b. Qed.
Lemma readonly_checked_incr (x : N) : readonly (checked_incr x).
Proof. intros s. unfold checked_incr. by destruct (x <? max_uint256). Qed.
Lemma readonly_bind {A B} (m : M A) (k : A -> M B) :
  readonly m -> (forall a, readonly (k a)) -> readonly (bind m k).
Proof.
  intros Hm Hk s. unfold bind. specialize (Hm s).
  destruct (m s) as [[a|e] s1]; simpl in *; subst; [apply Hk | done].
Qed.
Lemma readonly_if {A} (b : bool) (m1 m2 : M A) :
  readonly m1 -> readonly m2 -> readonly (if b then m1 else m2).
Proof. by destruct b. Qed.
Lemma readonly_for_upto {A} (cond : A -> bool) (body : N -> A -> M A) :
  (forall i a, readonly (body i a)) ->
  forall fuel i hi a, readonly (for_upto fuel i hi cond body a).
Proof.
  intros Hb fuel. induction fuel as [|fuel IH]; intros i hi a; simpl.
  - apply readonly_ret.
  - apply readonly_if; [| apply readonly_ret].
    apply readonly_bind; [apply Hb | intros a'].
    apply readonly_bind; [apply readonly_checked_incr | intros i'; apply IH].
Qed.

Lemma keeps_readonly {X A} (f : Storage -> X) (m : M A) :
  readonly m -> keeps f m.
Proof. intros Hm s. by rewrite Hm. Qed.
Lemma keeps_modify {X} (f : Storage -> X) (g : Storage -> Storage) :
  (forall s, f (g s) = f s) -> keeps f (modify g).
Proof. intros Hg s. apply Hg. Qed.
Lemma keeps_bind {X A B} (f : Storage -> X) (m : M A) (k : A -> M B) :
  keeps f m -> (forall a, keeps f (k a)) -> keeps f (bind m k).
Proof.
  intros Hm Hk s. unfold bind. specialize (Hm s).
  destruct (m s) as [[a|e] s1]; simpl in *; [| done].
  by rewrite Hk.
Qed.
Lemma keeps_if {X A} (f : Storage -> X) (b : bool) (m1 m2 : M A) :
  keeps f m1 -> keeps f m2 -> keeps f (if b then m1 else m2).
Proof. by destruct b. Qed.
Lemma keeps_for_upto {X A} (f : Storage -> X) (cond : A -> bool)
    (body : N -> A -> M A) :
  (forall i a, keeps f (body i a)) ->
  forall fuel i hi a, keeps f (for_upto fuel i hi cond body a).
Proof.
  intros Hb fuel. induction fuel as [|fuel IH]; intros i hi a; simpl.
  - by intros s.
  - apply keeps_if; [| by intros s].
    apply keeps_bind; [apply Hb | intros a'].
    apply keeps_bind; [| intros i'; apply IH].
    apply keeps_readonly, readonly_checked_incr.
Qed.

Lemma total_ret {A} (a : A) : total (ret a).
Proof. intros s. by exists a. Qed.
Lemma total_get : total get.
Proof. intros s. by exists s. Qed.
Lemma total_modify (g : Storage -> Storage) : total (modify g).
Proof. intros s. by exists tt. Qed.
Lemma total_bind {A B} (m : M A) (k : A -> M B) :
  total m -> (forall a, total (k a)) -> total (bind m k).
Proof.
  intros Hm Hk s. unfold bind. destruct (Hm s) as [a Ha].
  destruct (m s) as [[a'|e] s1]; simpl in *; [| done]. apply Hk.
Qed.
Lemma total_if {A} (b : bool) (m1 m2 : M A) :
  total m1 -> total m2 -> total (if b then m1 else m2).
Proof. by destruct b. Qed.

Lemma fails_clean_total {A} (m : M A) : total m -> fails_clean m.
Proof. intros Hm s e s' H. destruct (Hm s) as [a Ha]. by rewrite H in Ha. Qed.
Lemma fails_clean_readonly {A} (m : M A) : readonly m -> fails_clean m.
Proof. intros Hm s e s' H. specialize (Hm s). by rewrite H in Hm. Qed.
Lemma fails_clean_bind {A B} (m : M A) (k : A -> M B) :
  readonly m -> (forall a, fails_clean (k a)) -> fails_clean (bind m k).
Proof.
  intros Hm Hk s e s'. unfold bind. specialize (Hm s).
  destruct (m s) as [[a|e1] s1]; simpl in *; subst.
  - apply Hk.
  - by intros [= _ ->].
Qed.

Lemma readonly_FHE_fromExternal (msg : Msg) (h : N) (pr : bytes) :
  readonly (FHE_fromExternal msg h pr).
Proof.
  unfold FHE_fromExternal.
  apply readonly_if; [apply readonly_ret | apply readonly_revert].
Qed.
Lemma total_FHE_allow (h : euint128) (a : address) : total (FHE_allow h a).
Proof. apply total_modify. Qed.

Lemma readonly_require_departments (ds : list N) :
  readonly (require_departments ds).
Proof.
  induction ds as [|d ds IH]; simpl; [apply readonly_ret |].
  apply readonly_bind; [apply readonly_get | intros s].
  apply readonly_bind; [apply readonly_require | by intros _].
Qed.

Create HintDb ledger discriminated.
#[local] Hint Resolve readonly_ret readonly_get readonly_revert readonly_require
  readonly_checked_incr readonly_FHE_fromExternal readonly_require_departments
  total_ret total_get total_modify total_FHE_allow : ledger.

(** Repeatedly peel binds off a goal about a monadic computation. *)
Ltac peel_readonly :=
  repeat first
    [ apply readonly_bind; [| intros ?]
    | apply readonly_if
    | apply readonly_for_upto; intros ? ?
    | progress auto with ledger
    | match goal with |- readonly (match ?x with _ => _ end) => destruct x end ].

Ltac peel_total :=
  repeat first
    [ apply total_bind; [| intros ?]
    | apply total_if
    | progress auto with ledger ].

Lemma readonly_onlySystemAdmin (msg : Msg) : readonly (onlySystemAdmin msg).
Proof. unfold onlySystemAdmin. peel_readonly. Qed.
Lemma readonly_onlyDepartmentAdmin (msg : Msg) (d : N) :
  readonly (onlyDepartmentAdmin msg d).
Proof. unfold onlyDepartmentAdmin. peel_readonly. Qed.
Lemma readonly_onlyDepartmentMember (msg : Msg) (d : N) :
  readonly (onlyDepartmentMember msg d).
Proof. unfold onlyDepartmentMember. peel_readonly. Qed.
Lemma readonly_onlyAuditor (msg : Msg) : readonly (onlyAuditor msg).
Proof. unfold onlyAuditor. peel_readonly. Qed.
Lemma readonly_validDepartment (d : N) : readonly (validDepartment d).
Proof. unfold validDepartment. peel_readonly. Qed.
Lemma readonly_validRecord (r : N) : readonly (validRecord r).
Proof. unfold validRecord. peel_readonly. Qed.
#[local] Hint Resolve readonly_onlySystemAdmin readonly_onlyDepartmentAdmin
  readonly_onlyDepartmentMember readonly_onlyAuditor readonly_validDepartment
  readonly_validRecord : ledger.

Lemma readonly_new_array (n : N) : readonly (new_array n).
Proof. unfold new_array. peel_readonly. Qed.
#[local] Hint Resolve readonly_new_array : ledger.

Lemma readonly_scan_records (f : Record_ -> bool) (off lim : N) :
  readonly (scan_records f off lim).
Proof. unfold scan_records, scan_body. peel_readonly. Qed.

Lemma readonly_total_body (w : RecordType) (ds : list N) (p j : N) (t : euint128) :
  readonly (total_body w ds p j t).
Proof. unfold total_body. peel_readonly. Qed.

(** ** Loops over the record ids *)

(** The ids [i, i+1, ..., i+n-1]. *)
Fixpoint iota (i : N) (n : nat) : list N :=
  match n with
  | O => []
  | S n' => i :: iota (i + 1) n'
  end.

(** The ids a scan of the record store visits: [1 .. _recordCounter]. *)
Definition record_ids (s : Storage) : list N :=
  iota 1 (N.to_nat (_recordCounter s)).

(** A loop whose body cannot revert, as a function on (accumulator, storage). *)
Fixpoint loop_run {A} (cond : A -> bool) (step : N -> A -> Storage -> A * Storage)
    (l : list N) (a : A) (s : Storage) : A * Storage :=
  match l with
  | [] => (a, s)
  | j :: l' =>
      if cond a then loop_run cond step l' (fst (step j a s)) (snd (step j a s))
      else (a, s)
  end.

Lemma elem_of_iota (j i : N) (n : nat) :
  j ∈ iota i n <-> i <= j < i + N.of_nat n.
Proof.
  revert i. induction n as [|n IH]; intros i; simpl.
  - rewrite elem_of_nil. lia.
  - rewrite elem_of_cons, IH. lia.
Qed.

Lemma NoDup_iota (i : N) (n : nat) : NoDup (iota i n).
Proof.
  revert i. induction n as [|n IH]; intros i; simpl; constructor; [| apply IH].
  rewrite elem_of_iota. lia.
Qed.

Lemma elem_of_record_ids (s : Storage) (j : N) :
  j ∈ record_ids s <-> 1 <= j <= _recordCounter s.
Proof. unfold record_ids. rewrite elem_of_iota. lia. Qed.

Lemma iota_sorted (i : N) (n : nat) : StronglySorted N.lt (iota i n).
Proof.
  revert i. induction n as [|n IH]; intros i; simpl; constructor; [apply IH |].
  apply Forall_forall. intros j Hj%elem_of_iota. lia.
Qed.

(** A bounded loop below the overflow threshold runs its body on every id. *)
Lemma for_upto_run {A} (cond : A -> bool) (body : N -> A -> M A)
    (step : N -> A -> Storage -> A * Storage) :
  (forall j a s, body j a s = (Ok (fst (step j a s)), snd (step j a s))) ->
  forall fuel i hi a s,
    hi < max_uint256 -> N.of_nat fuel + i = hi + 1 ->
    for_upto fuel i hi cond body a s =
      (Ok (fst (loop_run cond step (iota i fuel) a s)),
       snd (loop_run cond step (iota i fuel) a s)).
Proof.
  intros Hbody fuel. induction fuel as [|fuel IH]; intros i hi a s Hhi Hfuel.
  - reflexivity.
  - simpl. replace (i <=? hi) with true by (symmetry; apply N.leb_le; lia).
    simpl. destruct (cond a); [| reflexivity].
    unfold bind at 1. rewrite Hbody.
    unfold bind at 1, checked_incr.
    replace (i <? max_uint256) with true by (symmetry; apply N.ltb_lt; lia).
    unfold ret at 1. apply IH; lia.
Qed.

Lemma max_uint256_pos : 1 <= max_uint256.
Proof. by compute. Qed.

(** At or beyond the overflow threshold the increment after the iteration at
    [max_uint256] panics. *)
Lemma for_upto_overflow {A} (body : N -> A -> M A) :
  (forall j a, total (body j a)) ->
  forall fuel i hi a s,
    i <= max_uint256 -> max_uint256 <= hi ->
    max_uint256 + 1 <= N.of_nat fuel + i ->
    exists e, fst (for_upto fuel i hi (fun _ => true) body a s) = Revert e.
Proof.
  intros Hbody fuel. induction fuel as [|fuel IH]; intros i hi a s Hi Hhi Hfuel.
  - lia.
  - simpl. replace (i <=? hi) with true by (symmetry; apply N.leb_le; lia).
    simpl. unfold bind at 1. destruct (Hbody i a s) as [a' Ha'].
    destruct (body i a s) as [[a''|e] s1]; simpl in Ha'; [| done].
    unfold bind at 1, checked_incr.
    destruct (N.ltb_spec i max_uint256) as [Hlt|Hge].
    + unfold ret at 1. apply IH; lia.
    + eexists. reflexivity.
Qed.

Lemma loop_run_readonly {A} (cond : A -> bool) (f : Storage -> N -> A -> A)
    (l : list N) (a : A) (s : Storage) :
  snd (loop_run cond (fun j a s => (f s j a, s)) l a s) = s.
Proof. revert a. induction l as [|j l IH]; intros a; simpl; [done |]. by destruct (cond a). Qed.

(** ** Decryption of sums *)

Fixpoint N_sum (l : list N) : N :=
  match l with
  | [] => 0
  | x :: l' => x + N_sum l'
  end.

Lemma N_sum_app (l k : list N) : N_sum (l ++ k) = N_sum l + N_sum k.
Proof. induction l as [|x l IH]; simpl; lia. Qed.

Lemma N_sum_perm (l k : list N) : l ≡ₚ k -> N_sum l = N_sum k.
Proof. induction 1; simpl; lia. Qed.

Lemma two128_pos : 0 < two128.
Proof. reflexivity. Qed.

Lemma decrypt_lt (e : euint128) : decrypt e < two128.
Proof. destruct e; simpl; try apply N.mod_lt; done. Qed.

Lemma decrypt_FHE_add (a b : euint128) :
  decrypt (FHE_add a b) = (decrypt a + decrypt b) mod two128.
Proof. reflexivity. Qed.

Lemma decrypt_FHE_sub (a b : euint128) :
  decrypt (FHE_sub a b) = (decrypt a + two128 - decrypt b) mod two128.
Proof. reflexivity. Qed.

Lemma decrypt_fold_add (hs : list euint128) (t : euint128) :
  decrypt (foldl FHE_add t hs) = (decrypt t + N_sum (map decrypt hs)) mod two128.
Proof.
  revert t. induction hs as [|h hs IH]; intros t; simpl.
  - rewrite N.add_0_r. symmetry. apply N.mod_small, decrypt_lt.
  - rewrite IH, decrypt_FHE_add.
    rewrite N.Div0.add_mod_idemp_l. f_equal. lia.
Qed.

(** ** The aggregation scan *)

Lemma bind_ok {A B} (m : M A) (k : A -> M B) (s s' : Storage) (a : A) :
  m s = (Ok a, s') -> bind m k s = k a s'.
Proof. intros H. unfold bind. by rewrite H. Qed.

Lemma bind_revert {A B} (m : M A) (k : A -> M B) (s s' : Storage) (e : string) :
  m s = (Revert e, s') -> bind m k s = (Revert e, s').
Proof. intros H. unfold bind. by rewrite H. Qed.

(** Whether the accumulation loop adds the amount of record [r]. *)
Definition included (wanted : RecordType) (departmentIds : list N)
    (projectId : N) (r : Record_) : bool :=
  r_exists r &&
  (array_contains (r_departmentId r) departmentIds &&
   ((projectId =? 0) || (r_projectId r =? projectId)) &&
   RecordType_eqb (recordType r) wanted).

Definition total_step (wanted : RecordType) (departmentIds : list N)
    (projectId : N) (s : Storage) (j : N) (t : euint128) : euint128 :=
  if included wanted departmentIds projectId (record_at s j)
  then FHE_add t (amount (record_at s j))
  else t.

(** The handle the accumulation loop builds: the amounts of the selected
    records, added in id order onto the encrypted zero. *)
Definition total_handle (wanted : RecordType) (departmentIds : list N)
    (projectId : N) (s : Storage) : euint128 :=
  foldl FHE_add (FHE_asEuint128 0)
    (map (fun j => amount (record_at s j))
       (filter (fun j => included wanted departmentIds projectId (record_at s j) = true)
          (record_ids s))).

Lemma total_body_eq w ds p j t s :
  total_body w ds p j t s = (Ok (total_step w ds p s j t), s).
Proof.
  unfold total_body, total_step, included. monad_unfold.
  destruct (r_exists (record_at s j)); simpl; [| done].
  by destruct (_ && _ && _).
Qed.

Lemma total_loop_fold w ds p s (l : list N) (t : euint128) :
  fst (loop_run (fun _ => true) (fun j a s => (total_step w ds p s j a, s)) l t s)
  = foldl FHE_add t
      (map (fun j => amount (record_at s j))
         (filter (fun j => included w ds p (record_at s j) = true) l)).
Proof.
  revert t. induction l as [|j l IH]; intros t; simpl; [done |].
  rewrite IH. unfold total_step. rewrite filter_cons.
  destruct (included w ds p (record_at s j)) eqn:Hinc.
  - rewrite decide_True by done. reflexivity.
  - rewrite decide_False by done. reflexivity.
Qed.

Lemma require_departments_ok (ds : list N) (s : Storage) :
  (forall d, d ∈ ds -> d_exists (department_at s d) = true) ->
  require_departments ds s = (Ok tt, s).
Proof.
  induction ds as [|d ds IH]; intros Hall; simpl; [done |].
  monad_unfold. rewrite (Hall d) by left.
  apply IH. intros d' Hd'. apply Hall. by right.
Qed.

Lemma require_departments_inv (ds : list N) (s s' : Storage) :
  require_departments ds s = (Ok tt, s') ->
  forall d, d ∈ ds -> d_exists (department_at s d) = true.
Proof.
  induction ds as [|d ds IH]; simpl; intros Hrun d' Hd'.
  - by apply elem_of_nil in Hd'.
  - monad_unfold. destruct (d_exists (department_at s d)) eqn:Hd; [| done].
    apply elem_of_cons in Hd' as [->|Hd']; [done | by apply IH].
Qed.

(** What a successful aggregation returns and writes. *)
Lemma calculateTotal_ok w msg ds p s :
  (forall d, d ∈ ds -> d_exists (department_at s d) = true) ->
  _recordCounter s < max_uint256 ->
  calculateTotal w msg ds p s =
    (Ok (total_handle w ds p s),
     set_acl ({[ (total_handle w ds p s, sender msg) ]} ∪
              ({[ (total_handle w ds p s, this) ]} ∪ acl s)) s).
Proof.
  intros Hds Hcnt. unfold calculateTotal.
  rewrite (bind_ok _ _ _ _ _ (require_departments_ok ds s Hds)).
  rewrite (bind_ok get _ s s s) by reflexivity.
  erewrite bind_ok; cycle 1.
  { apply (for_upto_run _ _ (fun j a s => (total_step w ds p s j a, s))).
    - intros. apply total_body_eq.
    - done.
    - lia. }
  rewrite loop_run_readonly, total_loop_fold.
  reflexivity.
Qed.

(** An aggregation that reverts has not written anything: its checks and
    its scan come before the two grants. *)
Lemma calculateTotal_fails_clean w msg ds p : fails_clean (calculateTotal w msg ds p).
Proof.
  unfold calculateTotal.
  apply fails_clean_bind; [auto with ledger | intros _].
  apply fails_clean_bind; [auto with ledger | intros s0].
  apply fails_clean_bind.
  { apply readonly_for_upto. intros. apply readonly_total_body. }
  intros t. apply fails_clean_total. unfold FHE_allowThis. peel_total.
Qed.

(** ** What the mutating calls write *)

Lemma fmapM_ok_inv {A B} (f : A -> B) (m : M A) (s s' : Storage) (b : B) :
  fmapM f m s = (Ok b, s') -> exists a, m s = (Ok a, s') /\ b = f a.
Proof.
  unfold fmapM, bind, ret. destruct (m s) as [[a|e] s1]; [| done].
  intros [= <- <-]. eauto.
Qed.

Lemma createDepartment_ok_inv msg nm adm s id s' :
  createDepartment msg nm adm s = (Ok id, s') ->
  sender msg = _systemAdmin s /\ adm <> 0 /\ String.length nm <> 0%nat /\
  _departmentCounter s < max_uint256 /\
  id = _departmentCounter s + 1 /\
  s' = set_userDepartments
         (<[adm := userDepartments_at s adm ++ [id]]> (_userDepartments s))
         (set_departmentAdmins (<[id := adm]> (_departmentAdmins s))
            (set_departments
               (<[id := mkDepartment id nm [adm] adm (block_timestamp msg) true]>
                  (_departments s))
               (set_departmentCounter id s))).
Proof.
  unfold createDepartment. unfold_modifiers. monad_unfold.
  destruct (N.eqb_spec (sender msg) (_systemAdmin s)); [| done].
  destruct (Nat.eqb_spec (String.length nm) 0); [done |].
  destruct (N.eqb_spec adm 0); [done |]. simpl.
  destruct (N.ltb_spec (_departmentCounter s) max_uint256); [| done].
  intros [= <- <-]. done.
Qed.

Lemma addDepartmentMember_ok_inv msg d mem s u s' :
  addDepartmentMember msg d mem s = (Ok u, s') ->
  departmentAdmin_at s d = sender msg /\
  d_exists (department_at s d) = true /\ mem <> 0 /\
  _isDepartmentMember s mem d = false /\
  s' = set_userDepartments
         (<[mem := userDepartments_at s mem ++ [d]]> (_userDepartments s))
         (set_departments
            (<[d := set_members (members (department_at s d) ++ [mem])
                      (department_at s d)]> (_departments s)) s).
Proof.
  unfold addDepartmentMember. unfold_modifiers. monad_unfold.
  destruct (N.eqb_spec (departmentAdmin_at s d) (sender msg)); [| done].
  destruct (d_exists (department_at s d)) eqn:Hex; [| done].
  destruct (N.eqb_spec mem 0); [done |]. simpl.
  destruct (_isDepartmentMember s mem d) eqn:Hm; [done |]. simpl.
  intros [= <- <-]. done.
Qed.

Lemma removeDepartmentMember_ok_inv msg d mem s u s' :
  removeDepartmentMember msg d mem s = (Ok u, s') ->
  departmentAdmin_at s d = sender msg /\
  d_exists (department_at s d) = true /\
  _isDepartmentMember s mem d = true /\
  mem <> admin (department_at s d) /\
  s' = set_userDepartments
         (<[mem := remove_first d (userDepartments_at s mem)]> (_userDepartments s))
         (set_departments
            (<[d := set_members (remove_first mem (members (department_at s d)))
                      (department_at s d)]> (_departments s)) s).
Proof.
  unfold removeDepartmentMember. unfold_modifiers. monad_unfold.
  destruct (N.eqb_spec (departmentAdmin_at s d) (sender msg)); [| done].
  destruct (d_exists (department_at s d)) eqn:Hex; [| done].
  destruct (_isDepartmentMember s mem d) eqn:Hm; [| done].
  destruct (N.eqb_spec mem (admin (department_at s d))); [done |]. simpl.
  intros [= <- <-]. done.
Qed.

(** The state a successful [createRecord] leaves: the new record under the
    next id, and the amount granted to the contract and to the sender. *)
Definition record_created (msg : Msg) (ty : RecordType) (enc d p : N)
    (desc : string) (s : Storage) : Storage :=
  let id := _recordCounter s + 1 in
  set_acl ({[ (Verified enc, sender msg) ]} ∪
           ({[ (Verified enc, this) ]} ∪ acl s))
    (set_records
       (<[id := mkRecord id ty (Verified enc) d p desc (block_timestamp msg)
                  (sender msg) true]> (_records s))
       (set_recordCounter id s)).

Lemma createRecord_ok_inv msg ty enc pr d p desc s id s' :
  createRecord msg ty enc pr d p desc s = (Ok id, s') ->
  _isDepartmentMember s (sender msg) d = true /\
  d_exists (department_at s d) = true /\
  String.length desc <> 0%nat /\
  inputVerifier enc pr this (sender msg) = true /\
  _recordCounter s < max_uint256 /\
  id = _recordCounter s + 1 /\
  s' = record_created msg ty enc d p desc s.
Proof.
  unfold createRecord, FHE_fromExternal, FHE_allowThis, FHE_allow, record_created.
  unfold_modifiers. monad_unfold.
  destruct (_isDepartmentMember s (sender msg) d) eqn:Hm; [| done].
  destruct (d_exists (department_at s d)) eqn:Hex; [| done].
  destruct (Nat.eqb_spec (String.length desc) 0); [done |]. simpl.
  destruct (inputVerifier enc pr this (sender msg)) eqn:Hv; [| done].
  monad_unfold.
  destruct (N.ltb_spec (_recordCounter s) max_uint256); [| done].
  unfold departmentAdmin_at at 1. simpl.
  destruct (default 0 (_departmentAdmins s !! d) =? sender msg).
  - intros [= <- <-]. repeat split; try done.
    unfold set_acl; simpl. f_equal. apply grant_twice.
  - intros [= <- <-]. done.
Qed.

Lemma createRecord_ok msg ty enc pr d p desc s :
  _isDepartmentMember s (sender msg) d = true ->
  String.length desc <> 0%nat ->
  inputVerifier enc pr this (sender msg) = true ->
  _recordCounter s < max_uint256 ->
  createRecord msg ty enc pr d p desc s =
    (Ok (_recordCounter s + 1), record_created msg ty enc d p desc s).
Proof.
  intros Hm Hdesc Hv Hcnt.
  assert (Hex : d_exists (department_at s d) = true).
  { unfold _isDepartmentMember in Hm.
    by destruct (d_exists (department_at s d)). }
  unfold createRecord, FHE_fromExternal, FHE_allowThis, FHE_allow, record_created.
  unfold_modifiers. monad_unfold.
  rewrite Hm, Hex.
  destruct (Nat.eqb_spec (String.length desc) 0); [done |]. simpl.
  rewrite Hv. monad_unfold.
  destruct (N.ltb_spec (_recordCounter s) max_uint256); [| lia].
  unfold departmentAdmin_at at 1. simpl.
  destruct (default 0 (_departmentAdmins s !! d) =? sender msg); [| done].
  unfold set_acl; simpl. do 2 f_equal. apply grant_twice.
Qed.

(** ** Calls that leave the registry and the record store alone *)

(** The part of the storage the aggregation, the calculation log and the
    auditor calls never write. *)
Definition core (s : Storage) :=
  (_recordCounter s, _records s, _departmentCounter s, _departments s,
   _userDepartments s, _departmentAdmins s, _systemAdmin s).

Ltac peel_keeps :=
  repeat first
    [ apply keeps_bind; [| intros ?]
    | apply keeps_if
    | apply keeps_for_upto; intros ? ?
    | apply keeps_modify; intros ?; reflexivity
    | apply keeps_readonly; solve [ auto with ledger ] ].

Lemma keeps_core_calculateTotal w msg ds p : keeps core (calculateTotal w msg ds p).
Proof.
  unfold calculateTotal, total_body, FHE_allowThis, FHE_allow. peel_keeps.
Qed.

Lemma keeps_core_calculateNetIncome msg ds p : keeps core (calculateNetIncome msg ds p).
Proof.
  unfold calculateNetIncome, calculateTotalIncome, calculateTotalExpense.
  apply keeps_bind; [apply keeps_core_calculateTotal | intros ?].
  apply keeps_bind; [apply keeps_core_calculateTotal | intros ?].
  unfold FHE_allowThis, FHE_allow. peel_keeps.
Qed.

Lemma keeps_core_saveCalculation msg ty enc pr ds ps desc :
  keeps core (saveCalculation msg ty enc pr ds ps desc).
Proof. unfold saveCalculation, FHE_allowThis, FHE_allow. peel_keeps. Qed.

Lemma keeps_core_addAuditor msg a : keeps core (addAuditor msg a).
Proof. unfold addAuditor, grant_body, FHE_allow. peel_keeps. Qed.

Lemma keeps_core_removeAuditor msg a : keeps core (removeAuditor msg a).
Proof. unfold removeAuditor. peel_keeps. Qed.

Lemma readonly_getDepartment (d : N) : readonly (getDepartment d).
Proof. unfold getDepartment. peel_readonly. Qed.
Lemma readonly_getUserDepartments (u : address) : readonly (getUserDepartments u).
Proof. unfold getUserDepartments. peel_readonly. Qed.
Lemma readonly_getRecord (msg : Msg) (r : N) : readonly (getRecord msg r).
Proof. unfold getRecord. peel_readonly. Qed.
Lemma readonly_getDepartmentRecords (msg : Msg) (d off lim : N) :
  readonly (getDepartmentRecords msg d off lim).
Proof.
  unfold getDepartmentRecords.
  apply readonly_bind; [auto with ledger | intros _].
  apply readonly_bind; [auto with ledger | intros _].
  apply readonly_scan_records.
Qed.
Lemma readonly_getAllRecords (msg : Msg) (off lim : N) :
  readonly (getAllRecords msg off lim).
Proof.
  unfold getAllRecords.
  apply readonly_bind; [auto with ledger | intros _].
  apply readonly_scan_records.
Qed.
Lemma readonly_isAuditor (a : address) : readonly (isAuditor a).
Proof. unfold isAuditor. peel_readonly. Qed.
Lemma readonly_getRecordCount : readonly getRecordCount.
Proof. unfold getRecordCount. peel_readonly. Qed.
Lemma readonly_getDepartmentCount : readonly getDepartmentCount.
Proof. unfold getDepartmentCount. peel_readonly. Qed.
#[local] Hint Resolve readonly_getDepartment readonly_getUserDepartments
  readonly_getRecord readonly_getDepartmentRecords readonly_getAllRecords
  readonly_isAuditor readonly_getRecordCount readonly_getDepartmentCount
  : ledger.

Lemma keeps_fmapM {X A B} (f : Storage -> X) (g : A -> B) (m : M A) :
  keeps f m -> keeps f (fmapM g m).
Proof. intros Hm. unfold fmapM. apply keeps_bind; [done | by intros a s]. Qed.

(** ** Invariants of reachable states *)

Record inv (s : Storage) : Prop := mkInv {
  inv_records : forall i,
    r_exists (record_at s i) = true <-> 1 <= i <= _recordCounter s;
  inv_departmentCounter : 1 <= _departmentCounter s;
  inv_system_exists : d_exists (department_at s 1) = true;
  inv_system_admin : admin (department_at s 1) = _systemAdmin s;
  inv_system_index : 1 ∉ userDepartments_at s (_systemAdmin s);
  inv_admin_member : forall d, d <> 1 ->
    d_exists (department_at s d) = true ->
    admin (department_at s d) ∈ members (department_at s d);
  inv_admins : forall d,
    d_exists (department_at s d) = true ->
    departmentAdmin_at s d = admin (department_at s d);
  inv_system_unlisted : _systemAdmin s ∉ members (department_at s 1)
}.

Lemma inv_core (s s' : Storage) : core s' = core s -> inv s -> inv s'.
Proof.
  unfold core. intros [= Hc Hr Hdc Hd Hu Ha Hs] [I1 I2 I3 I4 I5 I6 I7 I8].
  constructor;
    unfold record_at, department_at, userDepartments_at, departmentAdmin_at in *;
    rewrite ?Hc, ?Hr, ?Hdc, ?Hd, ?Hu, ?Ha, ?Hs; done.
Qed.

Lemma inv_constructor (msg : Msg) : inv (constructor msg).
Proof.
  constructor; unfold record_at, department_at, userDepartments_at,
    departmentAdmin_at; simpl.
  - intros i. rewrite lookup_empty. simpl. split; [done | lia].
  - lia.
  - by rewrite lookup_insert_eq.
  - by rewrite lookup_insert_eq.
  - rewrite lookup_empty. simpl. apply not_elem_of_nil.
  - intros d Hd. by rewrite lookup_insert_ne, lookup_empty.
  - intros d. destruct (decide (d = 1)) as [->|Hd].
    + by rewrite !lookup_insert_eq.
    + by rewrite lookup_insert_ne, lookup_empty.
  - rewrite lookup_insert_eq. simpl. apply not_elem_of_nil.
Qed.

(** Swap-and-pop only ever drops elements. *)
Lemma swap_and_pop_subseteq (i : nat) (a : list N) (x : N) :
  x ∈ swap_and_pop i a -> x ∈ a.
Proof.
  unfold swap_and_pop. destruct (last a) as [y|] eqn:Hlast; [| done].
  intros Hx%elem_of_take. destruct Hx as (k & Hk & Hlt).
  destruct (decide (i = k)) as [->|Hne].
  - destruct (decide (k < length a)%nat).
    + rewrite list_lookup_insert_eq in Hk by done.
      injection Hk as <-. rewrite last_lookup in Hlast.
      by eapply list_elem_of_lookup_2.
    + rewrite list_insert_ge in Hk by lia. by eapply list_elem_of_lookup_2.
  - rewrite list_lookup_insert_ne in Hk by done. by eapply list_elem_of_lookup_2.
Qed.

Lemma remove_first_subseteq (x y : N) (a : list N) :
  y ∈ remove_first x a -> y ∈ a.
Proof.
  unfold remove_first. destruct (find_index x a 0); [| done].
  apply swap_and_pop_subseteq.
Qed.

Lemma find_index_lookup (x : N) (a : list N) (n i : nat) :
  find_index x a n = Some i -> (n <= i)%nat /\ a !! (i - n)%nat = Some x.
Proof.
  revert n. induction a as [|y a IH]; intros n; simpl; [done |].
  destruct (N.eqb_spec y x) as [->|Hne].
  - intros [= <-]. by rewrite Nat.sub_diag.
  - intros [Hle Hl]%IH. split; [lia |].
    replace (i - n)%nat with (S (i - S n)) by lia. done.
Qed.

(** Swap-and-pop of the first occurrence of [x] keeps everything else. *)
Lemma remove_first_preserves (x y : N) (a : list N) :
  y ∈ a -> y <> x -> y ∈ remove_first x a.
Proof.
  intros Hy Hne. unfold remove_first.
  destruct (find_index x a 0) as [i|] eqn:Hfind; [| done].
  apply find_index_lookup in Hfind as [_ Hi]. rewrite Nat.sub_0_r in Hi.
  pose proof (lookup_lt_Some _ _ _ Hi) as Hilt.
  unfold swap_and_pop. destruct (last a) as [z|] eqn:Hlast.
  2:{ apply last_None in Hlast. subst a. by apply elem_of_nil in Hy. }
  rewrite last_lookup in Hlast.
  apply list_elem_of_lookup in Hy as [k Hk].
  pose proof (lookup_lt_Some _ _ _ Hk) as Hklt.
  assert (k <> i) by congruence.
  apply list_elem_of_lookup.
  destruct (decide (k < length a - 1)%nat) as [Hlt|Hge].
  - exists k. rewrite lookup_take_lt by done.
    by rewrite list_lookup_insert_ne.
  - assert (k = pred (length a)) as -> by lia.
    assert (z = y) as -> by congruence.
    exists i. rewrite lookup_take_lt by lia.
    by rewrite list_lookup_insert_eq.
Qed.

Ltac unfold_at :=
  unfold record_at, department_at, userDepartments_at, departmentAdmin_at,
    auditor_at in *; simpl in *.

Lemma inv_createDepartment msg nm adm s id s' :
  inv s -> createDepartment msg nm adm s = (Ok id, s') -> inv s'.
Proof.
  intros [I1 I2 I3 I4 I5 I6 I7 I8] (Hs & Hadm & Hnm & Hlt & -> & ->)%createDepartment_ok_inv.
  assert (Hid : _departmentCounter s + 1 <> 1) by lia.
  constructor; unfold_at.
  - done.
  - lia.
  - by rewrite lookup_insert_ne.
  - by rewrite lookup_insert_ne.
  - destruct (decide (adm = _systemAdmin s)) as [->|Hne].
    + rewrite lookup_insert_eq. simpl.
      rewrite elem_of_app, list_elem_of_singleton. intros [?|?]; [done | lia].
    + by rewrite lookup_insert_ne.
  - intros d Hd. destruct (decide (d = _departmentCounter s + 1)) as [->|Hne].
    + rewrite lookup_insert_eq. simpl. intros _. left.
    + rewrite lookup_insert_ne by done. by apply I6.
  - intros d. destruct (decide (d = _departmentCounter s + 1)) as [->|Hne].
    + by rewrite !lookup_insert_eq.
    + rewrite !lookup_insert_ne by done. apply I7.
  - by rewrite lookup_insert_ne.
Qed.

Lemma inv_addDepartmentMember msg d mem s u s' :
  inv s -> addDepartmentMember msg d mem s = (Ok u, s') -> inv s'.
Proof.
  intros [I1 I2 I3 I4 I5 I6 I7 I8] (Hs & Hex & Hmem & Hnot & ->)%addDepartmentMember_ok_inv.
  constructor; unfold_at.
  - done.
  - done.
  - destruct (decide (d = 1)) as [->|Hne].
    + by rewrite lookup_insert_eq.
    + by rewrite lookup_insert_ne.
  - destruct (decide (d = 1)) as [->|Hne].
    + by rewrite lookup_insert_eq.
    + by rewrite lookup_insert_ne.
  - destruct (decide (mem = _systemAdmin s)) as [->|Hne].
    + rewrite lookup_insert_eq. simpl.
      rewrite elem_of_app, list_elem_of_singleton. intros [?|<-]; [done |].
      unfold _isDepartmentMember, department_at in Hnot.
      rewrite I3, I4, N.eqb_refl in Hnot. done.
    + by rewrite lookup_insert_ne.
  - intros d' Hd'. destruct (decide (d' = d)) as [->|Hne].
    + rewrite lookup_insert_eq. simpl. intros Hex'.
      apply elem_of_app. left. by apply I6.
    + rewrite lookup_insert_ne by done. by apply I6.
  - intros d'. destruct (decide (d' = d)) as [->|Hne].
    + rewrite lookup_insert_eq. simpl. apply I7.
    + rewrite lookup_insert_ne by done. apply I7.
  - destruct (decide (d = 1)) as [->|Hne].
    + rewrite lookup_insert_eq. simpl.
      rewrite elem_of_app, list_elem_of_singleton. intros [?|Heq]; [done |].
      unfold _isDepartmentMember, department_at in Hnot.
      rewrite I3, I4, Heq, N.eqb_refl in Hnot. done.
    + by rewrite lookup_insert_ne.
Qed.

Lemma inv_removeDepartmentMember msg d mem s u s' :
  inv s -> removeDepartmentMember msg d mem s = (Ok u, s') -> inv s'.
Proof.
  intros [I1 I2 I3 I4 I5 I6 I7 I8] (Hs & Hex & Hmem & Hnot & ->)%removeDepartmentMember_ok_inv.
  constructor; unfold_at.
  - done.
  - done.
  - destruct (decide (d = 1)) as [->|Hne].
    + by rewrite lookup_insert_eq.
    + by rewrite lookup_insert_ne.
  - destruct (decide (d = 1)) as [->|Hne].
    + by rewrite lookup_insert_eq.
    + by rewrite lookup_insert_ne.
  - destruct (decide (mem = _systemAdmin s)) as [->|Hne].
    + rewrite lookup_insert_eq. simpl. intros Hin%remove_first_subseteq. done.
    + by rewrite lookup_insert_ne.
  - intros d' Hd'. destruct (decide (d' = d)) as [->|Hne].
    + rewrite lookup_insert_eq. simpl. intros Hex'.
      apply remove_first_preserves; [by apply I6 | done].
    + rewrite lookup_insert_ne by done. by apply I6.
  - intros d'. destruct (decide (d' = d)) as [->|Hne].
    + rewrite lookup_insert_eq. simpl. apply I7.
    + rewrite lookup_insert_ne by done. apply I7.
  - destruct (decide (d = 1)) as [->|Hne].
    + rewrite lookup_insert_eq. simpl. by intros Hin%remove_first_subseteq.
    + by rewrite lookup_insert_ne.
Qed.

Lemma inv_createRecord msg ty enc pr d p desc s id s' :
  inv s -> createRecord msg ty enc pr d p desc s = (Ok id, s') -> inv s'.
Proof.
  intros [I1 I2 I3 I4 I5 I6 I7 I8] (_ & _ & _ & _ & Hlt & -> & ->)%createRecord_ok_inv.
  constructor; unfold record_created; unfold_at; try done.
  intros i. destruct (decide (i = _recordCounter s + 1)) as [->|Hne].
  - rewrite lookup_insert_eq. simpl. split; [lia | done].
  - rewrite lookup_insert_ne by done. rewrite I1. lia.
Qed.

(** Every transaction preserves the invariants. *)
Lemma inv_step (s : Storage) (msg : Msg) (c : Call) :
  inv s -> inv (snd (transact (exec msg c) s)).
Proof.
  intros Hinv. unfold transact.
  destruct (exec msg c s) as [[v|e] s'] eqn:Hexec; [simpl | done].
  assert (Hkeep : forall m : M Value, keeps core m -> m s = (Ok v, s') -> inv s').
  { intros m Hm Hrun. apply (inv_core s); [| done].
    specialize (Hm s). by rewrite Hrun in Hm. }
  destruct c; simpl in Hexec;
    first
      [ apply fmapM_ok_inv in Hexec as (a & Hrun & _);
        first [ by eapply inv_createDepartment
              | by eapply inv_addDepartmentMember
              | by eapply inv_removeDepartmentMember
              | by eapply inv_createRecord ]
      | eapply Hkeep; [| exact Hexec]; apply keeps_fmapM;
        first [ apply keeps_core_calculateTotal
              | apply keeps_core_calculateNetIncome
              | apply keeps_core_saveCalculation
              | apply keeps_core_addAuditor
              | apply keeps_core_removeAuditor
              | apply keeps_readonly; solve [ auto with ledger ] ] ].
Qed.

Lemma reachable_inv (s : Storage) : reachable s -> inv s.
Proof.
  induction 1 as [msg | s msg c _ IH]; [apply inv_constructor | by apply inv_step].
Qed.

(** ** Removing an auditor *)

(** C5.  When the system administrator removes a current auditor [p], the
    call succeeds, [isAuditor p] becomes false and nothing else changes:
    the grant relation is the same (so [p] can still decrypt whatever it was
    granted), and so are the records, the departments, the calculations,
    the reverse index, the counters and every other auditor's status. *)
Theorem removeAuditor_only_clears_status (s : Storage) (msg : Msg) (p : address) :
  sender msg = _systemAdmin s ->
  auditor_at s p = true ->
  exists s',
    transact (removeAuditor msg p) s = (Ok tt, s') /\
    s' = set_auditors (<[p := false]> (_auditors s)) s /\
    isAuditor p s' = (Ok false, s') /\
    acl s' = acl s /\
    (forall h a, isAllowed s' h a = isAllowed s h a) /\
    _records s' = _records s /\
    _departments s' = _departments s /\
    _calculations s' = _calculations s /\
    _userDepartments s' = _userDepartments s /\
    _departmentAdmins s' = _departmentAdmins s /\
    _recordCounter s' = _recordCounter s /\
    _departmentCounter s' = _departmentCounter s /\
    _calculationCounter s' = _calculationCounter s /\
    _systemAdmin s' = _systemAdmin s /\
    (forall q, q <> p -> auditor_at s' q = auditor_at s q).
Proof.
  intros Hadmin Haud.
  exists (set_auditors (<[p := false]> (_auditors s)) s).
  split.
  { apply transact_ok. unfold removeAuditor, onlySystemAdmin. monad_unfold.
    rewrite Hadmin, N.eqb_refl, Haud. reflexivity. }
  split; [reflexivity |].
  split.
  { unfold isAuditor, auditor_at. monad_unfold. simpl.
    by rewrite lookup_insert_eq. }
  repeat split; try reflexivity.
  intros q Hq. unfold auditor_at. simpl. by rewrite lookup_insert_ne.
Qed.

(** ** The department admin cannot be removed *)

(** C7.  For an existing department, removing its admin fails whoever the
    caller is; the call writes nothing, so the member list of the
    department and the reverse index of the admin are as before. *)
Theorem removeDepartmentMember_admin_fails (s : Storage) (msg : Msg)
    (dept : uint256) :
  d_exists (department_at s dept) = true ->
  let a := admin (department_at s dept) in
  exists e,
    removeDepartmentMember msg dept a s = (Revert e, s) /\
    transact (removeDepartmentMember msg dept a) s = (Revert e, s) /\
    (e = "ShadowLedger: only department admin" \/
     e = "ShadowLedger: cannot remove admin") /\
    members (department_at (snd (transact (removeDepartmentMember msg dept a) s)) dept)
      = members (department_at s dept) /\
    userDepartments_at (snd (transact (removeDepartmentMember msg dept a) s)) a
      = userDepartments_at s a.
Proof.
  intros Hex a.
  assert (Hbody : exists e, removeDepartmentMember msg dept a s = (Revert e, s) /\
     (e = "ShadowLedger: only department admin" \/
      e = "ShadowLedger: cannot remove admin")).
  { unfold removeDepartmentMember. unfold_modifiers. monad_unfold.
    destruct (departmentAdmin_at s dept =? sender msg); [| eauto].
    rewrite Hex. unfold _isDepartmentMember. rewrite Hex. simpl.
    subst a. rewrite N.eqb_refl. simpl. eauto. }
  destruct Hbody as (e & Hbody & He).
  exists e. rewrite (transact_revert _ _ _ _ Hbody). auto.
Qed.

(** ** Totals over departments *)

(** The records an aggregation over [departmentIds] and [projectId] is
    meant to cover, in the words of the specification. *)
Definition selected (wanted : RecordType) (departmentIds : list N)
    (projectId : N) (s : Storage) (i : N) : Prop :=
  r_exists (record_at s i) = true /\
  r_departmentId (record_at s i) ∈ departmentIds /\
  recordType (record_at s i) = wanted /\
  (projectId = 0 \/ r_projectId (record_at s i) = projectId).

Lemma included_selected w ds p s i :
  included w ds p (record_at s i) = true <-> selected w ds p s i.
Proof.
  clear this inputVerifier cleartext. unfold included, selected.
  rewrite !andb_true_iff, orb_true_iff, array_contains_elem_of, !N.eqb_eq.
  destruct (recordType (record_at s i)), w; simpl; intuition congruence.
Qed.

(** The decryption of an aggregate is the wrapped sum over any duplicate-free
    enumeration of the selected records. *)
Lemma decrypt_total_handle w ds p s (ids : list N) :
  inv s ->
  NoDup ids ->
  (forall i, i ∈ ids <-> selected w ds p s i) ->
  decrypt (total_handle w ds p s)
  = N_sum (map (fun i => decrypt (amount (record_at s i))) ids) mod two128.
Proof.
  clear this inputVerifier.
  intros Hinv Hnd Hids. unfold total_handle.
  rewrite decrypt_fold_add. simpl. rewrite N.Div0.mod_0_l, N.add_0_l.
  f_equal. rewrite map_map. apply N_sum_perm.
  apply Permutation_map, NoDup_Permutation; [| done |].
  - apply NoDup_filter, NoDup_iota.
  - intros i. rewrite list_elem_of_filter, included_selected, Hids.
    rewrite elem_of_record_ids. split; [tauto |].
    intros Hsel. split; [done |].
    apply (inv_records s Hinv). apply Hsel.
Qed.

(** C2.  In a reachable state with the record counter below the overflow
    threshold, when every requested department exists,
    [calculateTotalIncome] returns a handle that decrypts to the sum modulo
    2^128 of the amounts of exactly the existing Income records of those
    departments that pass the project filter; in particular, when those
    records are two, of 1000 and 2000, the handle decrypts to 3000. *)
Theorem calculateTotalIncome_sums (s : Storage) (msg : Msg)
    (departmentIds : list N) (projectId : N) :
  reachable s ->
  _recordCounter s < max_uint256 ->
  (forall d, d ∈ departmentIds -> d_exists (department_at s d) = true) ->
  exists h s',
    transact (calculateTotalIncome msg departmentIds projectId) s = (Ok h, s') /\
    (forall ids : list N,
       NoDup ids ->
       (forall i, i ∈ ids <->
          r_exists (record_at s i) = true /\
          r_departmentId (record_at s i) ∈ departmentIds /\
          recordType (record_at s i) = Income /\
          (projectId = 0 \/ r_projectId (record_at s i) = projectId)) ->
       decrypt h
       = N_sum (map (fun i => decrypt (amount (record_at s i))) ids) mod 2 ^ 128) /\
    (forall i j : N,
       i <> j ->
       (forall k, selected Income departmentIds projectId s k <-> k = i \/ k = j) ->
       decrypt (amount (record_at s i)) = 1000 ->
       decrypt (amount (record_at s j)) = 2000 ->
       decrypt h = 3000).
Proof.
  intros Hreach Hcnt Hds. apply reachable_inv in Hreach.
  eexists _, _. split; [| split].
  - apply transact_ok. by apply calculateTotal_ok.
  - intros ids Hnd Hids. by apply decrypt_total_handle.
  - intros i j Hij Hsel Hi Hj.
    rewrite (decrypt_total_handle Income departmentIds projectId s [i; j]); [| done | |].
    + simpl. rewrite Hi, Hj. reflexivity.
    + apply NoDup_cons. split; [by rewrite list_elem_of_singleton |].
      apply NoDup_singleton.
    + intros k. rewrite Hsel, elem_of_cons, list_elem_of_singleton. done.
Qed.

Lemma total_handle_set_acl (w : RecordType) (ds : list N) (p : N)
    (a : gset (euint128 * N)) (s : Storage) :
  total_handle w ds p (set_acl a s) = total_handle w ds p s.
Proof. reflexivity. Qed.

(** What a successful [calculateNetIncome] returns and writes. *)
Lemma calculateNetIncome_ok msg ds p s :
  (forall d, d ∈ ds -> d_exists (department_at s d) = true) ->
  _recordCounter s < max_uint256 ->
  exists s',
    calculateNetIncome msg ds p s =
      (Ok (FHE_sub (total_handle Income ds p s) (total_handle Expense ds p s)), s') /\
    core s' = core s.
Proof.
  intros Hds Hcnt. eexists. split.
  - unfold calculateNetIncome, calculateTotalIncome, calculateTotalExpense.
    rewrite (bind_ok _ _ _ _ _ (calculateTotal_ok Income _ ds p s Hds Hcnt)).
    erewrite bind_ok; cycle 1.
    { apply calculateTotal_ok; [apply Hds | apply Hcnt]. }
    rewrite total_handle_set_acl. reflexivity.
  - reflexivity.
Qed.

(** C3.  With the record counter below the overflow threshold, when every
    requested department exists, [calculateNetIncome]
    returns a handle that decrypts to total income minus total expense
    modulo 2^128, the totals being what [calculateTotalIncome] and
    [calculateTotalExpense] return for the same filters; a negative
    difference wraps around to [2^128 - (expense - income)]. *)
Theorem calculateNetIncome_wraps (s : Storage) (msg : Msg)
    (departmentIds : list N) (projectId : N) :
  _recordCounter s < max_uint256 ->
  (forall d, d ∈ departmentIds -> d_exists (department_at s d) = true) ->
  exists hi he h si se s',
    transact (calculateTotalIncome msg departmentIds projectId) s = (Ok hi, si) /\
    transact (calculateTotalExpense msg departmentIds projectId) s = (Ok he, se) /\
    transact (calculateNetIncome msg departmentIds projectId) s = (Ok h, s') /\
    Z.of_N (decrypt h)
    = ((Z.of_N (decrypt hi) - Z.of_N (decrypt he)) mod 2 ^ 128)%Z /\
    (decrypt he <= decrypt hi -> decrypt h = decrypt hi - decrypt he) /\
    (decrypt hi < decrypt he ->
     decrypt h = 2 ^ 128 - (decrypt he - decrypt hi)).
Proof.
  intros Hcnt Hds.
  destruct (calculateNetIncome_ok msg departmentIds projectId s Hds Hcnt)
    as (s' & Hnet & _).
  eexists _, _, _, _, _, _.
  split; [apply transact_ok; by apply calculateTotal_ok |].
  split; [apply transact_ok; by apply calculateTotal_ok |].
  split; [apply transact_ok, Hnet |].
  rewrite decrypt_FHE_sub.
  pose proof (decrypt_lt (total_handle Income departmentIds projectId s)) as Hi.
  pose proof (decrypt_lt (total_handle Expense departmentIds projectId s)) as He.
  set (x := decrypt (total_handle Income departmentIds projectId s)) in *.
  set (y := decrypt (total_handle Expense departmentIds projectId s)) in *.
  change two128 with (2 ^ 128) in *.
  split; [| split].
  - rewrite N2Z.inj_mod, N2Z.inj_sub by lia. rewrite N2Z.inj_add.
    change (Z.of_N (2 ^ 128)) with (2 ^ 128)%Z.
    replace (Z.of_N x + 2 ^ 128 - Z.of_N y)%Z
      with ((Z.of_N x - Z.of_N y) + 1 * 2 ^ 128)%Z by lia.
    by rewrite Z.mod_add.
  - intros Hle.
    replace (x + 2 ^ 128 - y) with ((x - y) + 1 * 2 ^ 128) by lia.
    rewrite N.Div0.mod_add. apply N.mod_small. lia.
  - intros Hlt. rewrite N.mod_small by lia. lia.
Qed.

(** ** Grants *)

Lemma transact_ok_inv {A} (m : M A) (s s' : Storage) (a : A) :
  transact m s = (Ok a, s') -> m s = (Ok a, s').
Proof. unfold transact. destruct (m s) as [[a'|e] s1]; by intros [= <- <-]. Qed.

Lemma isAllowed_true (s : Storage) (h : euint128) (a : address) :
  isAllowed s h a = true <-> (h, a) ∈ acl s.
Proof. unfold isAllowed. apply bool_decide_eq_true. Qed.

(** [createRecord] grants the new amount to the contract and to the sender,
    and to nobody else. *)
Lemma createRecord_acl msg ty enc pr d p desc s id s' :
  createRecord msg ty enc pr d p desc s = (Ok id, s') ->
  forall h a,
    isAllowed s' h a = true <->
    isAllowed s h a = true \/ (h = Verified enc /\ (a = sender msg \/ a = this)).
Proof.
  intros (_ & _ & _ & _ & _ & _ & ->)%createRecord_ok_inv h a.
  rewrite !isAllowed_true. unfold record_created. simpl.
  rewrite !elem_of_union, !elem_of_singleton. split.
  - intros [[= -> ->]|[[= -> ->]|?]]; auto.
  - intros [?|[-> [->| ->]]]; auto.
Qed.

(** One iteration of the loop of [addAuditor], and the whole loop. *)
Definition grant_one (auditor : address) (s : Storage) (j : N) : Storage :=
  if r_exists (record_at s j)
  then set_acl ({[ (amount (record_at s j), auditor) ]} ∪ acl s) s
  else s.

Definition grant_all (auditor : address) (l : list N) (s : Storage) : Storage :=
  foldl (grant_one auditor) s l.

Lemma grant_body_eq (p : address) (j : N) (u : unit) (s : Storage) :
  grant_body p j u s = (Ok tt, grant_one p s j).
Proof.
  unfold grant_body, grant_one, FHE_allow. monad_unfold.
  by destruct (r_exists (record_at s j)).
Qed.

Lemma grant_loop_run (p : address) (l : list N) (s : Storage) :
  snd (loop_run (fun _ : unit => true) (fun j _ s => (tt, grant_one p s j)) l tt s)
  = grant_all p l s.
Proof. revert s. induction l as [|j l IH]; intros s; simpl; [done | apply IH]. Qed.

Lemma grant_all_frame (p : address) (l : list N) (s : Storage) :
  grant_all p l s = set_acl (acl (grant_all p l s)) s.
Proof.
  revert s. induction l as [|j l IH]; intros s; simpl.
  - by destruct s.
  - rewrite IH at 1. unfold grant_one.
    by destruct (r_exists (record_at s j)).
Qed.

Lemma grant_all_acl (p : address) (l : list N) (s : Storage) (h : euint128)
    (a : address) :
  (h, a) ∈ acl (grant_all p l s) <->
  (h, a) ∈ acl s \/
  (a = p /\ exists j, j ∈ l /\ r_exists (record_at s j) = true /\
                      h = amount (record_at s j)).
Proof.
  revert s. induction l as [|j l IH]; intros s; simpl.
  - split; [auto |]. intros [?|(_ & j & Hj & _)]; [done |].
    by apply elem_of_nil in Hj.
  - rewrite IH. unfold grant_one.
    destruct (r_exists (record_at s j)) eqn:Hex; simpl.
    + rewrite elem_of_union, elem_of_singleton. split.
      * intros [[[= -> ->]|?]|(-> & k & Hk & Hkex & ->)]; [| auto |].
        -- right. split; [done |]. exists j. split; [left | done].
        -- right. split; [done |]. exists k. split; [by right | done].
      * intros [?|(-> & k & [->|Hk]%elem_of_cons & Hkex & ->)]; [auto | auto |].
        right. split; [done |]. by exists k.
    + split.
      * intros [?|(-> & k & Hk & Hkex & ->)]; [auto |].
        right. split; [done |]. exists k. split; [by right | done].
      * intros [?|(-> & k & [->|Hk]%elem_of_cons & Hkex & ->)]; [auto | congruence |].
        right. split; [done |]. by exists k.
Qed.

Lemma addAuditor_ok msg p s :
  sender msg = _systemAdmin s -> p <> 0 -> auditor_at s p = false ->
  _recordCounter s < max_uint256 ->
  addAuditor msg p s =
    (Ok tt, grant_all p (record_ids s)
              (set_auditors (<[p := true]> (_auditors s)) s)).
Proof.
  intros Hs Hp Ha Hcnt. unfold addAuditor, onlySystemAdmin. monad_unfold.
  rewrite Hs, N.eqb_refl.
  destruct (N.eqb_spec p 0); [done |]. simpl. rewrite Ha. simpl.
  rewrite (for_upto_run _ _ (fun j _ s => (tt, grant_one p s j))); simpl.
  - rewrite grant_loop_run.
    by destruct (loop_run _ _ _ _ _) as [[] ?].
  - intros j [] s0. apply grant_body_eq.
  - done.
  - lia.
Qed.

Lemma addAuditor_ok_inv msg p s u s' :
  addAuditor msg p s = (Ok u, s') ->
  sender msg = _systemAdmin s /\ p <> 0 /\ auditor_at s p = false.
Proof.
  unfold addAuditor, onlySystemAdmin. monad_unfold.
  destruct (N.eqb_spec (sender msg) (_systemAdmin s)); [| done].
  destruct (N.eqb_spec p 0); [done |]. simpl.
  destruct (auditor_at s p); [done |]. done.
Qed.

(** C4.  Below the overflow threshold of the record counter, [addAuditor p]
    succeeds exactly when the sender is the system admin, [p] is not the
    null address and [p] is not yet an auditor.  On success [p] is an
    auditor, the other statuses are as before, the registry and the record
    store are untouched, and the grants are the old ones plus [p] on the
    amount of every record that exists.  A later [createRecord], in any
    state, grants its amount to the contract and to its sender only, so [p]
    gains nothing from it unless [p] is that sender or the contract. *)
Theorem addAuditor_grants_existing (s : Storage) (msg : Msg) (p : address) :
  reachable s ->
  _recordCounter s < max_uint256 ->
  ((exists s', transact (addAuditor msg p) s = (Ok tt, s')) <->
   (sender msg = _systemAdmin s /\ p <> 0 /\ auditor_at s p = false)) /\
  (forall s', transact (addAuditor msg p) s = (Ok tt, s') ->
     auditor_at s' p = true /\
     (forall q, q <> p -> auditor_at s' q = auditor_at s q) /\
     core s' = core s /\
     (forall i, r_exists (record_at s i) = true ->
                isAllowed s' (amount (record_at s i)) p = true) /\
     (forall h a, isAllowed s' h a = true <->
        isAllowed s h a = true \/
        (a = p /\ exists i, r_exists (record_at s i) = true /\
                            h = amount (record_at s i)))) /\
  (forall t msg' ty enc pr d pj desc id t',
     transact (createRecord msg' ty enc pr d pj desc) t = (Ok id, t') ->
     p <> sender msg' -> p <> this ->
     forall h, isAllowed t' h p = isAllowed t h p).
Proof.
  clear cleartext.
  intros Hreach Hcnt. apply reachable_inv in Hreach.
  assert (Hspec : forall s', transact (addAuditor msg p) s = (Ok tt, s') ->
     s' = grant_all p (record_ids s) (set_auditors (<[p := true]> (_auditors s)) s)).
  { intros s' Hrun%transact_ok_inv.
    pose proof (addAuditor_ok_inv _ _ _ _ _ Hrun) as (Hs & Hp & Ha).
    rewrite (addAuditor_ok msg p s Hs Hp Ha Hcnt) in Hrun. congruence. }
  assert (Hacl : forall s' h a, transact (addAuditor msg p) s = (Ok tt, s') ->
     (isAllowed s' h a = true <->
        isAllowed s h a = true \/
        (a = p /\ exists i, r_exists (record_at s i) = true /\
                            h = amount (record_at s i)))).
  { intros s' h a ->%Hspec. rewrite !isAllowed_true, grant_all_acl. simpl.
    split; intros [?|(-> & i & Hi)]; auto; right; (split; [done |]); exists i.
    - tauto.
    - split; [| tauto]. apply elem_of_record_ids, (inv_records s Hreach).
      apply Hi. }
  split; [| split].
  - split.
    + intros (s' & Hrun%transact_ok_inv). by eapply addAuditor_ok_inv.
    + intros (Hs & Hp & Ha). eexists. apply transact_ok. by apply addAuditor_ok.
  - intros s' Hrun. pose proof (Hspec s' Hrun) as Hs'.
    rewrite grant_all_frame in Hs'. subst s'.
    split; [| split; [| split; [| split]]].
    + unfold auditor_at. simpl. by rewrite lookup_insert_eq.
    + intros q Hq. unfold auditor_at. simpl. by rewrite lookup_insert_ne.
    + reflexivity.
    + intros i Hi. apply (Hacl _ _ _ Hrun). right. split; [done |]. by exists i.
    + intros h a. apply (Hacl _ _ _ Hrun).
  - intros t msg' ty enc pr d pj desc id t' Hrun%transact_ok_inv Hp1 Hp2 h.
    apply eq_true_iff_eq. rewrite (createRecord_acl _ _ _ _ _ _ _ _ _ _ Hrun).
    split; [| auto]. intros [?|(_ & [?|?])]; done.
Qed.

(** ** Pagination *)

(** One iteration of the paginated scan, as a function. *)
Definition scan_step (matches : Record_ -> bool) (offset : N) (s : Storage)
    (i : N) (st : list N * N * N) : list N * N * N :=
  let '(recordIds, count, skipped) := st in
  if matches (record_at s i) then
    if skipped <? offset then (recordIds, count, skipped + 1)
    else (<[N.to_nat count := i]> recordIds, count + 1, skipped)
  else st.

Lemma scan_body_eq f off i st s :
  scan_body f off i st s = (Ok (scan_step f off s i st), s).
Proof.
  unfold scan_body, scan_step. monad_unfold. destruct st as [[arr c] k].
  destruct (f (record_at s i)); [| done]. by destruct (k <? off).
Qed.

(** The page a scan collects from the ids [l] still to visit, when it has
    collected [take count arr] so far and skipped [skipped] matches. *)
Lemma scan_loop_page f off lim s (l : list N) (arr : list N) (c k : N) :
  length arr = N.to_nat lim -> c <= lim -> k <= off ->
  let st' := fst (loop_run (fun st : list N * N * N => snd (fst st) <? lim)
                    (fun j a s => (scan_step f off s j a, s)) l (arr, c, k) s) in
  take (N.to_nat (snd (fst st'))) (fst (fst st'))
  = take (N.to_nat lim)
      (take (N.to_nat c) arr ++
       drop (N.to_nat (off - k)) (filter (fun j => f (record_at s j) = true) l)).
Proof.
  revert arr c k. induction l as [|j l IH]; intros arr c k Hlen Hc Hk; simpl.
  - rewrite filter_nil, drop_nil, app_nil_r, take_take. f_equal. lia.
  - destruct (N.ltb_spec c lim) as [Hlt|Hge]; simpl.
    + rewrite filter_cons. unfold scan_step at 1 2.
      destruct (f (record_at s j)) eqn:Hf.
      * rewrite decide_True by done.
        destruct (N.ltb_spec k off) as [Hk'|Hk'].
        -- rewrite IH by (done || lia).
           replace (N.to_nat (off - k)) with (S (N.to_nat (off - (k + 1)))) by lia.
           reflexivity.
        -- rewrite IH by (rewrite ?length_insert; done || lia).
           replace (N.to_nat (off - k)) with 0%nat by lia. simpl.
           replace (N.to_nat (c + 1)) with (S (N.to_nat c)) by lia.
           rewrite (take_S_r _ _ j).
           ++ rewrite take_insert_ge by lia. by rewrite <- app_assoc.
           ++ apply list_lookup_insert_eq. lia.
      * rewrite decide_False by congruence. apply IH; done.
    + rewrite take_app_le; [| rewrite length_take; lia].
      rewrite take_take. f_equal. lia.
Qed.

(** The scan never collects more than [lim] ids. *)
Lemma scan_loop_count f off lim s (l : list N) (arr : list N) (c k : N) :
  c <= lim ->
  snd (fst (fst (loop_run (fun st : list N * N * N => snd (fst st) <? lim)
                   (fun j a s => (scan_step f off s j a, s)) l (arr, c, k) s)))
  <= lim.
Proof.
  revert arr c k. induction l as [|j l IH]; intros arr c k Hc; simpl; [done |].
  destruct (N.ltb_spec c lim) as [Hlt|Hge]; simpl; [| done].
  unfold scan_step at 1. destruct (f (record_at s j)); [| by apply IH].
  destruct (k <? off); apply IH; lia.
Qed.

Lemma new_array_ok (n : N) (s : Storage) :
  n <= max_uint64 -> new_array n s = (Ok (replicate (N.to_nat n) 0), s).
Proof.
  intros Hn. unfold new_array.
  by replace (n <=? max_uint64) with true by (symmetry; apply N.leb_le; lia).
Qed.

Lemma new_array_panic (n : N) (s : Storage) :
  max_uint64 < n -> new_array n s = (Revert "Panic(0x41)", s).
Proof.
  intros Hn. unfold new_array.
  by replace (n <=? max_uint64) with false by (symmetry; apply N.leb_gt; lia).
Qed.

(** A page longer than [2^64 - 1] entries cannot be allocated. *)
Lemma scan_records_panic f off lim s :
  max_uint64 < lim -> scan_records f off lim s = (Revert "Panic(0x41)", s).
Proof.
  intros Hlim. unfold scan_records.
  apply bind_revert. by apply new_array_panic.
Qed.

Lemma scan_records_ok f off lim s :
  _recordCounter s < max_uint256 ->
  lim <= max_uint64 ->
  scan_records f off lim s =
    (Ok (take (N.to_nat lim)
           (drop (N.to_nat off)
              (filter (fun j => f (record_at s j) = true) (record_ids s)))), s).
Proof.
  intros Hcnt Hlim. unfold scan_records.
  rewrite (bind_ok (new_array lim) _ s s _ (new_array_ok lim s Hlim)).
  rewrite (bind_ok get _ s s s) by reflexivity.
  erewrite bind_ok; cycle 1.
  { apply (for_upto_run _ _ (fun j a s => (scan_step f off s j a, s))).
    - intros. apply scan_body_eq.
    - done.
    - lia. }
  rewrite loop_run_readonly.
  pose proof (scan_loop_page f off lim s (record_ids s)
                (replicate (N.to_nat lim) 0) 0 0) as Hpage.
  pose proof (scan_loop_count f off lim s (record_ids s)
                (replicate (N.to_nat lim) 0) 0 0) as Hcount.
  simpl in Hpage. rewrite N.sub_0_r in Hpage.
  fold (record_ids s).
  destruct (fst (loop_run _ _ (record_ids s) _ s)) as [[arr c] k] eqn:Hst.
  simpl in Hpage, Hcount.
  rewrite (bind_ok (new_array c) _ s s _ (new_array_ok c s ltac:(lia))).
  unfold ret. f_equal. f_equal.
  apply Hpage; [apply length_replicate | lia | lia].
Qed.

Lemma StronglySorted_sublist (l k : list N) :
  sublist l k -> StronglySorted N.lt k -> StronglySorted N.lt l.
Proof.
  induction 1 as [| x l k Hlk IH | x l k Hlk IH]; intros Hs.
  - constructor.
  - apply StronglySorted_inv in Hs as [Hs Hx]. constructor; [by apply IH |].
    eapply Forall_forall. intros y Hy.
    eapply Forall_forall in Hx; [done |]. by apply (sublist_subseteq l k).
  - apply StronglySorted_inv in Hs as [Hs _]. by apply IH.
Qed.

(** The ids of the existing records of a department, in creation order. *)
Definition department_record_ids (s : Storage) (dept : N) : list N :=
  filter (fun j => (r_exists (record_at s j)
                    && (r_departmentId (record_at s j) =? dept)) = true)
    (record_ids s).

(** C6.  In a reachable state with the record counter below the overflow
    threshold, what [getDepartmentRecords dept offset limit] called by a
    member of [dept] does depends on [limit].  A [limit] above [2^64 - 1]
    makes the allocation of the page panic, whatever the records are.  With
    a [limit] of at most [2^64 - 1] the call returns the existing records of
    [dept] in ascending id order without the first [offset] of them, cut to
    [limit] entries: with [n] such records that is exactly
    [min limit (n - offset)] ids when [offset < n] and none when
    [offset >= n]. *)
Theorem getDepartmentRecords_page (s : Storage) (msg : Msg)
    (dept offset limit : uint256) :
  reachable s ->
  _recordCounter s < max_uint256 ->
  _isDepartmentMember s (sender msg) dept = true ->
  let matching := department_record_ids s dept in
  let n := N.of_nat (length matching) in
  (max_uint64 < limit ->
   transact (getDepartmentRecords msg dept offset limit) s
   = (Revert "Panic(0x41)", s)) /\
  (limit <= max_uint64 ->
   exists ids,
     transact (getDepartmentRecords msg dept offset limit) s = (Ok ids, s) /\
     ids = take (N.to_nat limit) (drop (N.to_nat offset) matching) /\
     (forall i, i ∈ matching <->
        r_exists (record_at s i) = true /\ r_departmentId (record_at s i) = dept) /\
     NoDup matching /\
     StronglySorted N.lt matching /\
     StronglySorted N.lt ids /\
     (offset < n -> N.of_nat (length ids) = N.min limit (n - offset)) /\
     (n <= offset -> ids = [])).
Proof.
  clear cleartext.
  intros Hreach Hcnt Hmem matching n. apply reachable_inv in Hreach.
  assert (Hex : d_exists (department_at s dept) = true).
  { unfold _isDepartmentMember in Hmem. by destruct (d_exists (department_at s dept)). }
  split.
  { intros Hlim. apply (transact_revert _ s s).
    unfold getDepartmentRecords. unfold_modifiers. monad_unfold.
    rewrite Hmem, Hex. by apply scan_records_panic. }
  intros Hlim.
  exists (take (N.to_nat limit) (drop (N.to_nat offset) matching)).
  assert (Hsorted : StronglySorted N.lt matching).
  { eapply StronglySorted_sublist; [apply sublist_filter | apply iota_sorted]. }
  split; [| split; [reflexivity | split; [| split; [| split; [done | split; [| split]]]]]].
  - apply transact_ok. unfold getDepartmentRecords. unfold_modifiers. monad_unfold.
    rewrite Hmem, Hex. by apply scan_records_ok.
  - intros i. unfold matching, department_record_ids.
    rewrite list_elem_of_filter, andb_true_iff, N.eqb_eq, elem_of_record_ids.
    split; [tauto |]. intros [Hi Hd]. split; [done |].
    apply (inv_records s Hreach), Hi.
  - apply NoDup_filter, NoDup_iota.
  - eapply StronglySorted_sublist; [| exact Hsorted].
    etrans; [apply sublist_take | apply sublist_drop].
  - intros Hoff. rewrite length_take, length_drop. subst n. lia.
  - intros Hoff. rewrite drop_ge; [by rewrite take_nil | subst n; lia].
Qed.

(** ** Atomicity *)

Lemma fails_clean_fmapM {A B} (f : A -> B) (m : M A) :
  fails_clean m -> fails_clean (fmapM f m).
Proof.
  intros Hm s e s'. unfold fmapM, bind, ret.
  destruct (m s) as [[a|e1] s1] eqn:Hrun; [done |].
  intros [= _ <-]. by eapply Hm.
Qed.

Lemma total_FHE_allowThis (h : euint128) : total (FHE_allowThis h).
Proof. apply total_modify. Qed.
#[local] Hint Resolve total_FHE_allowThis : ledger.

(** Peel the checks off a function body: every check is read-only, and what
    follows the last check cannot revert. *)
Ltac peel_fails_clean :=
  repeat first
    [ apply fails_clean_bind;
      [ solve [ auto with ledger ] | intros ? ]
    | apply fails_clean_total; solve [ peel_total ] ].

Lemma createDepartment_fails_clean msg nm adm :
  fails_clean (createDepartment msg nm adm).
Proof. unfold createDepartment. peel_fails_clean. Qed.

Lemma addDepartmentMember_fails_clean msg d mem :
  fails_clean (addDepartmentMember msg d mem).
Proof. unfold addDepartmentMember. peel_fails_clean. Qed.

Lemma removeDepartmentMember_fails_clean msg d mem :
  fails_clean (removeDepartmentMember msg d mem).
Proof. unfold removeDepartmentMember. peel_fails_clean. Qed.

Lemma createRecord_fails_clean msg ty enc pr d p desc :
  fails_clean (createRecord msg ty enc pr d p desc).
Proof. unfold createRecord. peel_fails_clean. Qed.

Lemma saveCalculation_fails_clean msg ty enc pr ds ps desc :
  fails_clean (saveCalculation msg ty enc pr ds ps desc).
Proof. unfold saveCalculation. peel_fails_clean. Qed.

Lemma removeAuditor_fails_clean msg a : fails_clean (removeAuditor msg a).
Proof. unfold removeAuditor. peel_fails_clean. Qed.

(** An aggregation either meets its preconditions or reverts on the spot. *)
Lemma calculateTotal_cases w msg ds p s :
  (_recordCounter s < max_uint256 /\
   forall d, d ∈ ds -> d_exists (department_at s d) = true) \/
  (exists e, calculateTotal w msg ds p s = (Revert e, s)).
Proof.
  destruct (require_departments ds s) as [[[]|e] s1] eqn:Hreq;
    pose proof (readonly_require_departments ds s) as Hro;
    rewrite Hreq in Hro; simpl in Hro; subst s1.
  - destruct (N.ltb_spec (_recordCounter s) max_uint256) as [Hlt|Hge].
    + left. split; [done |]. by eapply require_departments_inv.
    + right. unfold calculateTotal.
      rewrite (bind_ok _ _ _ _ _ Hreq), (bind_ok get _ s s s) by reflexivity.
      destruct (for_upto_overflow (total_body w ds p)
                  (fun j a s0 => ex_intro _ _ (f_equal fst (total_body_eq w ds p j a s0)))
                  (N.to_nat (_recordCounter s)) 1 (_recordCounter s)
                  (FHE_asEuint128 0) s) as [e He];
        [apply max_uint256_pos | done | lia |].
      pose proof (readonly_for_upto (fun _ => true) (total_body w ds p)
                    (fun i a => readonly_total_body w ds p i a)
                    (N.to_nat (_recordCounter s)) 1 (_recordCounter s)
                    (FHE_asEuint128 0) s) as Hro.
      destruct (for_upto _ _ _ _ _ _ s) as [[t|e'] s2] eqn:Hloop;
        simpl in He, Hro; [done |]. subst s2.
      exists e'. by rewrite (bind_revert _ _ _ _ _ Hloop).
  - right. exists e. unfold calculateTotal. by rewrite (bind_revert _ _ _ _ _ Hreq).
Qed.

Lemma calculateNetIncome_fails_clean msg ds p :
  fails_clean (calculateNetIncome msg ds p).
Proof.
  intros s e s' Hrun.
  destruct (calculateTotal_cases Income (mkMsg this (block_timestamp msg)) ds p s)
    as [[Hcnt Hds] | [e' Hrev]].
  - destruct (calculateNetIncome_ok msg ds p s Hds Hcnt) as (s1 & Hok & _).
    congruence.
  - unfold calculateNetIncome, calculateTotalIncome in Hrun.
    rewrite (bind_revert _ _ _ _ _ Hrev) in Hrun. congruence.
Qed.

Lemma addAuditor_fails_clean msg a s e s' :
  _recordCounter s < max_uint256 ->
  addAuditor msg a s = (Revert e, s') -> s' = s.
Proof.
  intros Hcnt.
  destruct (N.eqb_spec (sender msg) (_systemAdmin s)) as [Hs|Hs];
    [destruct (N.eqb_spec a 0) as [Ha|Ha];
     [| destruct (auditor_at s a) eqn:Haud] |].
  3: by rewrite (addAuditor_ok msg a s Hs Ha Haud Hcnt).
  all: unfold addAuditor, onlySystemAdmin; monad_unfold.
  - rewrite Hs, N.eqb_refl. subst a. simpl. congruence.
  - rewrite Hs, N.eqb_refl. destruct (N.eqb_spec a 0); [done |]. simpl.
    rewrite Haud. simpl. congruence.
  - destruct (N.eqb_spec (sender msg) (_systemAdmin s)); [done |]. congruence.
Qed.

(** C9.  Every call either returns, and the storage is the one its body
    produced, or reverts, and the storage is exactly the one before the
    call.  In a reverted call the body had in fact not written anything
    when it stopped, the one exception being [addAuditor] at the overflow
    threshold of the record counter, whose writes the revert discards. *)
Theorem calls_are_atomic (s : Storage) (msg : Msg) (c : Call) :
  (exists v s',
     exec msg c s = (Ok v, s') /\ transact (exec msg c) s = (Ok v, s')) \/
  (exists e s1,
     exec msg c s = (Revert e, s1) /\
     transact (exec msg c) s = (Revert e, s) /\
     (s1 = s \/ ((exists a, c = AddAuditor a) /\ max_uint256 <= _recordCounter s))).
Proof.
  destruct (exec msg c s) as [[v|e] s1] eqn:Hexec.
  { left. exists v, s1. split; [done |]. by apply transact_ok. }
  right. exists e, s1. split; [done |]. split; [by eapply transact_revert |].
  assert (Hclean : forall m : M Value, fails_clean m -> m s = (Revert e, s1) -> s1 = s).
  { intros m Hm. apply Hm. }
  destruct c; simpl in Hexec;
    try (left; eapply Hclean; [| exact Hexec]; apply fails_clean_fmapM;
         first [ apply createDepartment_fails_clean
               | apply addDepartmentMember_fails_clean
               | apply removeDepartmentMember_fails_clean
               | apply createRecord_fails_clean
               | apply calculateTotal_fails_clean
               | apply calculateNetIncome_fails_clean
               | apply saveCalculation_fails_clean
               | apply removeAuditor_fails_clean
               | apply fails_clean_readonly; solve [ auto with ledger ] ]).
  destruct (N.ltb_spec (_recordCounter s) max_uint256) as [Hlt|Hge].
  - left. unfold fmapM, bind in Hexec.
    destruct (addAuditor msg auditor s) as [[[]|e1] s2] eqn:Hrun; [done |].
    injection Hexec as <- <-. by eapply addAuditor_fails_clean.
  - right. eauto.
Qed.

(** ** Department admins and member lists *)

(** A department made by [createDepartment] lists its admin as a member in
    every reachable state. *)
Lemma created_department_admin_listed (s : Storage) (d : N) :
  reachable s -> d <> 1 -> d_exists (department_at s d) = true ->
  admin (department_at s d) ∈ members (department_at s d).
Proof. intros Hinv%reachable_inv. apply (inv_admin_member s Hinv). Qed.

(** The System department never lists its admin. *)
Lemma system_admin_never_listed (s : Storage) :
  reachable s ->
  d_exists (department_at s 1) = true /\
  admin (department_at s 1) ∉ members (department_at s 1).
Proof.
  intros Hinv%reachable_inv. split; [apply (inv_system_exists s Hinv) |].
  rewrite (inv_system_admin s Hinv). apply (inv_system_unlisted s Hinv).
Qed.

(** ** The System department and the reverse index *)

(** C10.  In every reachable state the system admin passes the membership
    test of department 1, yet department 1 is not in the list
    [getUserDepartments] returns for the system admin: the constructor
    leaves that list empty, and [addDepartmentMember 1] rejects the system
    admin, whoever calls it; called by the system admin itself, the only
    sender that passes the admin check of department 1, it is rejected as
    already a member. *)
Theorem system_department_missing_from_index (s : Storage) :
  reachable s ->
  _isDepartmentMember s (_systemAdmin s) 1 = true /\
  (exists l, getUserDepartments (_systemAdmin s) s = (Ok l, s) /\ 1 ∉ l) /\
  (forall msg, exists e,
     transact (addDepartmentMember msg 1 (_systemAdmin s)) s = (Revert e, s)) /\
  (forall msg,
     sender msg = _systemAdmin s -> _systemAdmin s <> 0 ->
     transact (addDepartmentMember msg 1 (_systemAdmin s)) s
     = (Revert "ShadowLedger: already member", s)) /\
  (forall msg,
     getUserDepartments (_systemAdmin (constructor msg)) (constructor msg)
     = (Ok [], constructor msg)).
Proof.
  intros Hinv%reachable_inv.
  assert (Hmem : _isDepartmentMember s (_systemAdmin s) 1 = true).
  { unfold _isDepartmentMember.
    by rewrite (inv_system_exists s Hinv), (inv_system_admin s Hinv), N.eqb_refl. }
  split; [done |]. split; [| split; [| split]].
  - exists (userDepartments_at s (_systemAdmin s)). split; [done |].
    apply (inv_system_index s Hinv).
  - intros msg.
    destruct (addDepartmentMember msg 1 (_systemAdmin s) s) as [[[]|e] s1] eqn:Hrun.
    + apply addDepartmentMember_ok_inv in Hrun as (_ & _ & _ & Hnot & _). congruence.
    + exists e. by eapply transact_revert.
  - intros msg Hsender Hnonzero.
    apply (transact_revert _ s s). unfold addDepartmentMember. unfold_modifiers.
    monad_unfold.
    rewrite (inv_admins s Hinv 1 (inv_system_exists s Hinv)).
    rewrite (inv_system_admin s Hinv), Hsender, N.eqb_refl.
    rewrite (inv_system_exists s Hinv).
    destruct (N.eqb_spec (_systemAdmin s) 0); [done |]. simpl.
    by rewrite Hmem.
  - intros msg. reflexivity.
Qed.

(** ** Swap-and-pop removal *)

Lemma find_index_elem_of (x : N) (a : list N) (n : nat) :
  x ∈ a -> exists i, find_index x a n = Some i.
Proof.
  revert n. induction a as [|y a IH]; intros n Hx; simpl.
  - by apply elem_of_nil in Hx.
  - destruct (N.eqb_spec y x) as [->|Hne]; [eauto |].
    apply IH. apply elem_of_cons in Hx as [?|?]; [congruence | done].
Qed.

Lemma find_index_not_elem_of (x : N) (a : list N) (n : nat) :
  x ∉ a -> find_index x a n = None.
Proof.
  revert n. induction a as [|y a IH]; intros n Hx; simpl; [done |].
  apply not_elem_of_cons in Hx as [Hne Hx].
  destruct (N.eqb_spec y x) as [->|_]; [done | by apply IH].
Qed.

Lemma find_index_app_last (x : N) (a : list N) (n : nat) :
  x ∉ a -> find_index x (a ++ [x]) n = Some (n + length a)%nat.
Proof.
  revert n. induction a as [|y a IH]; intros n Hx; simpl.
  - rewrite N.eqb_refl. f_equal. lia.
  - apply not_elem_of_cons in Hx as [Hne Hx].
    destruct (N.eqb_spec y x) as [->|_]; [done |].
    rewrite IH by done. f_equal. lia.
Qed.

Lemma insert_swap_perm (x y : N) (a : list N) (i : nat) :
  a !! i = Some x -> x :: <[i:=y]> a ≡ₚ y :: a.
Proof.
  revert i. induction a as [|z a IH]; intros [|i]; simpl; try done.
  - intros [= ->]. apply perm_swap.
  - intros Hi. rewrite perm_swap, (IH i Hi). apply perm_swap.
Qed.

(** The removal loop takes out one occurrence of [x]: putting [x] back in
    front gives a permutation of the array before the removal. *)
Lemma remove_first_perm (x : N) (a : list N) :
  x ∈ a -> x :: remove_first x a ≡ₚ a.
Proof.
  intros Hx. unfold remove_first.
  destruct (find_index_elem_of x a 0 Hx) as [i Hfind]. rewrite Hfind.
  apply find_index_lookup in Hfind as [_ Hi]. rewrite Nat.sub_0_r in Hi.
  unfold swap_and_pop.
  destruct (last a) as [y|] eqn:Hlast.
  2:{ apply last_None in Hlast. subst a. by apply elem_of_nil in Hx. }
  destruct a as [|a0 a'] using rev_ind; [done |]. clear IHa'.
  rewrite last_snoc in Hlast. injection Hlast as ->.
  rewrite length_app. simpl.
  replace (length a' + 1 - 1)%nat with (length a') by lia.
  destruct (decide (i < length a')%nat) as [Hlt|Hge].
  - rewrite insert_app_l by done.
    rewrite take_app_length' by (by rewrite length_insert).
    rewrite lookup_app_l in Hi by done.
    rewrite (insert_swap_perm x y a' i Hi). apply Permutation_cons_append.
  - pose proof (lookup_lt_Some _ _ _ Hi) as Hilt.
    rewrite length_app in Hilt. simpl in Hilt.
    assert (i = length a') as -> by lia.
    rewrite list_lookup_middle in Hi by done. injection Hi as ->.
    rewrite insert_app_r_alt by lia. rewrite Nat.sub_diag. simpl.
    rewrite take_app_length. apply Permutation_cons_append.
Qed.

Lemma remove_first_absent (x : N) (a : list N) :
  x ∉ a -> remove_first x a = a.
Proof. intros Hx. unfold remove_first. by rewrite find_index_not_elem_of. Qed.

(** Removing an element that was just pushed restores the array. *)
Lemma remove_first_app_last (x : N) (a : list N) :
  x ∉ a -> remove_first x (a ++ [x]) = a.
Proof.
  intros Hx. unfold remove_first, swap_and_pop.
  rewrite find_index_app_last by done. simpl.
  rewrite last_snoc, length_app. simpl.
  rewrite insert_app_r_alt by lia. rewrite Nat.sub_diag. simpl.
  replace (length a + 1 - 1)%nat with (length a) by lia.
  apply take_app_length.
Qed.

Lemma remove_first_NoDup (x : N) (a : list N) :
  NoDup a -> x ∈ a ->
  NoDup (remove_first x a) /\
  forall y, y ∈ remove_first x a <-> y ∈ a /\ y <> x.
Proof.
  intros Hnd Hx. pose proof (remove_first_perm x a Hx) as Hperm.
  rewrite <- Hperm in Hnd. apply NoDup_cons in Hnd as [Hnotin Hnd'].
  split; [done |]. intros y.
  assert (Hy : y ∈ x :: remove_first x a <-> y ∈ a) by (by rewrite Hperm).
  rewrite <- Hy, elem_of_cons.
  split.
  - intros Hin. split; [by right |]. by intros ->.
  - by intros [[->|Hin] Hne].
Qed.

(** ** Grants are never taken back *)

(** [grows m]: every grant held before [m] is held after it. *)
Definition grows {A} (m : M A) : Prop := forall s, acl s ⊆ acl (snd (m s)).

Lemma grows_readonly {A} (m : M A) : readonly m -> grows m.
Proof. intros Hm s. by rewrite Hm. Qed.
Lemma grows_keeps {A} (m : M A) : keeps acl m -> grows m.
Proof. intros Hm s. by rewrite Hm. Qed.
Lemma grows_bind {A B} (m : M A) (k : A -> M B) :
  grows m -> (forall a, grows (k a)) -> grows (bind m k).
Proof.
  intros Hm Hk s. unfold bind. specialize (Hm s).
  destruct (m s) as [[a|e] s1]; simpl in *; [| done].
  etrans; [exact Hm | apply Hk].
Qed.
Lemma grows_if {A} (b : bool) (m1 m2 : M A) :
  grows m1 -> grows m2 -> grows (if b then m1 else m2).
Proof. by destruct b. Qed.
Lemma grows_FHE_allow (h : euint128) (a : address) : grows (FHE_allow h a).
Proof. intros s. simpl. apply union_subseteq_r. Qed.
Lemma grows_for_upto {A} (cond : A -> bool) (body : N -> A -> M A) :
  (forall i a, grows (body i a)) ->
  forall fuel i hi a, grows (for_upto fuel i hi cond body a).
Proof.
  intros Hb fuel. induction fuel as [|fuel IH]; intros i hi a; simpl.
  - by intros s.
  - apply grows_if; [| by intros s].
    apply grows_bind; [apply Hb | intros a'].
    apply grows_bind; [| intros i'; apply IH].
    apply grows_readonly, readonly_checked_incr.
Qed.

Ltac peel_grows :=
  repeat first
    [ apply grows_FHE_allow
    | apply grows_readonly; solve [ auto with ledger ]
    | apply grows_keeps, keeps_modify; intros ?; reflexivity
    | apply grows_bind; [| intros ?]
    | apply grows_if
    | apply grows_for_upto; intros ? ? ].

Lemma grows_calculateTotal w msg ds p : grows (calculateTotal w msg ds p).
Proof. unfold calculateTotal, FHE_allowThis. peel_grows. Qed.

Lemma grows_exec (msg : Msg) (c : Call) : grows (exec msg c).
Proof.
  destruct c; simpl; unfold fmapM;
    (apply grows_bind; [| intros ?; by apply grows_readonly, readonly_ret]).
  - unfold createDepartment. peel_grows.
  - unfold addDepartmentMember. peel_grows.
  - unfold removeDepartmentMember. peel_grows.
  - apply grows_readonly. auto with ledger.
  - apply grows_readonly. auto with ledger.
  - unfold createRecord, FHE_allowThis. peel_grows.
  - apply grows_readonly. auto with ledger.
  - apply grows_readonly. auto with ledger.
  - apply grows_readonly. auto with ledger.
  - apply grows_calculateTotal.
  - apply grows_calculateTotal.
  - unfold calculateNetIncome, calculateTotalIncome, calculateTotalExpense,
      FHE_allowThis.
    apply grows_bind; [apply grows_calculateTotal | intros ?].
    apply grows_bind; [apply grows_calculateTotal | intros ?].
    peel_grows.
  - unfold saveCalculation, FHE_allowThis. peel_grows.
  - unfold addAuditor, grant_body. peel_grows.
  - unfold removeAuditor. peel_grows.
  - apply grows_readonly. auto with ledger.
  - apply grows_readonly. auto with ledger.
  - apply grows_readonly. auto with ledger.
Qed.

(** X13.  No call ever takes a grant back: whatever a call does, returning
    or reverting, every (handle, account) pair granted before it is still
    granted after it. *)
Theorem grants_never_revoked (s : Storage) (msg : Msg) (c : Call)
    (h : euint128) (a : address) :
  isAllowed s h a = true ->
  isAllowed (snd (transact (exec msg c) s)) h a = true.
Proof.
  rewrite !isAllowed_true. intros Hin.
  pose proof (grows_exec msg c s) as Hgrow.
  unfold transact. destruct (exec msg c s) as [[v|e] s1]; simpl in *; [| done].
  by apply Hgrow.
Qed.

(** ** The states the registry calls leave *)

Definition department_created (msg : Msg) (nm : string) (adm : address)
    (s : Storage) : Storage :=
  let id := _departmentCounter s + 1 in
  set_userDepartments
    (<[adm := userDepartments_at s adm ++ [id]]> (_userDepartments s))
    (set_departmentAdmins (<[id := adm]> (_departmentAdmins s))
       (set_departments
          (<[id := mkDepartment id nm [adm] adm (block_timestamp msg) true]>
             (_departments s))
          (set_departmentCounter id s))).

Definition member_added (d : N) (mem : address) (s : Storage) : Storage :=
  set_userDepartments
    (<[mem := userDepartments_at s mem ++ [d]]> (_userDepartments s))
    (set_departments
       (<[d := set_members (members (department_at s d) ++ [mem])
                 (department_at s d)]> (_departments s)) s).

Definition member_removed (d : N) (mem : address) (s : Storage) : Storage :=
  set_userDepartments
    (<[mem := remove_first d (userDepartments_at s mem)]> (_userDepartments s))
    (set_departments
       (<[d := set_members (remove_first mem (members (department_at s d)))
                 (department_at s d)]> (_departments s)) s).

Lemma department_at_created msg nm adm s d :
  department_at (department_created msg nm adm s) d =
  if decide (d = _departmentCounter s + 1)
  then mkDepartment d nm [adm] adm (block_timestamp msg) true
  else department_at s d.
Proof.
  unfold department_at, department_created. simpl.
  case_decide as Hd; [subst d; by rewrite lookup_insert_eq |].
  by rewrite lookup_insert_ne.
Qed.

Lemma userDepartments_at_created msg nm adm s u :
  userDepartments_at (department_created msg nm adm s) u =
  if decide (u = adm)
  then userDepartments_at s adm ++ [_departmentCounter s + 1]
  else userDepartments_at s u.
Proof.
  unfold userDepartments_at, department_created. simpl.
  case_decide as Hu; [subst u; by rewrite lookup_insert_eq |].
  by rewrite lookup_insert_ne.
Qed.

Lemma department_at_added d mem s d' :
  department_at (member_added d mem s) d' =
  if decide (d' = d)
  then set_members (members (department_at s d) ++ [mem]) (department_at s d)
  else department_at s d'.
Proof.
  unfold department_at, member_added. simpl.
  case_decide as Hd; [subst d'; by rewrite lookup_insert_eq |].
  by rewrite lookup_insert_ne.
Qed.

Lemma userDepartments_at_added d mem s u :
  userDepartments_at (member_added d mem s) u =
  if decide (u = mem) then userDepartments_at s mem ++ [d]
  else userDepartments_at s u.
Proof.
  unfold userDepartments_at, member_added. simpl.
  case_decide as Hu; [subst u; by rewrite lookup_insert_eq |].
  by rewrite lookup_insert_ne.
Qed.

Lemma department_at_removed d mem s d' :
  department_at (member_removed d mem s) d' =
  if decide (d' = d)
  then set_members (remove_first mem (members (department_at s d)))
         (department_at s d)
  else department_at s d'.
Proof.
  unfold department_at, member_removed. simpl.
  case_decide as Hd; [subst d'; by rewrite lookup_insert_eq |].
  by rewrite lookup_insert_ne.
Qed.

Lemma userDepartments_at_removed d mem s u :
  userDepartments_at (member_removed d mem s) u =
  if decide (u = mem) then remove_first d (userDepartments_at s mem)
  else userDepartments_at s u.
Proof.
  unfold userDepartments_at, member_removed. simpl.
  case_decide as Hu; [subst u; by rewrite lookup_insert_eq |].
  by rewrite lookup_insert_ne.
Qed.

Lemma createDepartment_ok msg nm adm s :
  sender msg = _systemAdmin s -> String.length nm <> 0%nat -> adm <> 0 ->
  _departmentCounter s < max_uint256 ->
  createDepartment msg nm adm s =
    (Ok (_departmentCounter s + 1), department_created msg nm adm s).
Proof.
  intros Hs Hnm Hadm Hlt. unfold createDepartment. unfold_modifiers. monad_unfold.
  rewrite Hs, N.eqb_refl.
  destruct (Nat.eqb_spec (String.length nm) 0); [done |].
  destruct (N.eqb_spec adm 0); [done |]. simpl.
  destruct (N.ltb_spec (_departmentCounter s) max_uint256); [done | lia].
Qed.

Lemma addDepartmentMember_ok msg d mem s :
  departmentAdmin_at s d = sender msg ->
  d_exists (department_at s d) = true -> mem <> 0 ->
  _isDepartmentMember s mem d = false ->
  addDepartmentMember msg d mem s = (Ok tt, member_added d mem s).
Proof.
  intros Hs Hex Hmem Hnot. unfold addDepartmentMember. unfold_modifiers.
  monad_unfold. rewrite Hs, N.eqb_refl, Hex.
  destruct (N.eqb_spec mem 0); [done |]. simpl. by rewrite Hnot.
Qed.

Lemma removeDepartmentMember_ok msg d mem s :
  departmentAdmin_at s d = sender msg ->
  d_exists (department_at s d) = true ->
  _isDepartmentMember s mem d = true ->
  mem <> admin (department_at s d) ->
  removeDepartmentMember msg d mem s = (Ok tt, member_removed d mem s).
Proof.
  intros Hs Hex Hmem Hnot. unfold removeDepartmentMember. unfold_modifiers.
  monad_unfold. rewrite Hs, N.eqb_refl, Hex, Hmem.
  destruct (N.eqb_spec mem (admin (department_at s d))); [done |]. done.
Qed.

(** Membership, read off the member list. *)
Lemma isDepartmentMember_true s u d :
  _isDepartmentMember s u d = true <->
  d_exists (department_at s d) = true /\
  (admin (department_at s d) = u \/ u ∈ members (department_at s d)).
Proof.
  unfold _isDepartmentMember.
  destruct (d_exists (department_at s d)); simpl.
  - destruct (N.eqb_spec (admin (department_at s d)) u) as [Heq|Hne].
    + split; [auto | done].
    + rewrite array_contains_elem_of. split; [auto |].
      by intros [_ [?|?]].
  - split; [done | by intros [? _]].
Qed.

(** ** Invariants of the department registry *)

Record registry_inv (s : Storage) : Prop := mkRegistryInv {
  reg_exists : forall d,
    d_exists (department_at s d) = true <-> 1 <= d <= _departmentCounter s;
  reg_id : forall d,
    d_exists (department_at s d) = true -> d_id (department_at s d) = d;
  reg_name : forall d,
    d_exists (department_at s d) = true ->
    String.length (name (department_at s d)) <> 0%nat;
  reg_members_exist : forall d,
    d_exists (department_at s d) = false -> members (department_at s d) = [];
  reg_members_nodup : forall d, NoDup (members (department_at s d));
  reg_index_nodup : forall u, NoDup (userDepartments_at s u);
  reg_index_iff : forall u d,
    d ∈ userDepartments_at s u <-> u ∈ members (department_at s d)
}.

Lemma registry_inv_frame (s s' : Storage) :
  _departmentCounter s' = _departmentCounter s ->
  _departments s' = _departments s ->
  _userDepartments s' = _userDepartments s ->
  registry_inv s -> registry_inv s'.
Proof.
  intros Hdc Hd Hu [R1 R2 R3 R4 R5 R6 R7].
  constructor; unfold department_at, userDepartments_at in *;
    rewrite ?Hdc, ?Hd, ?Hu; done.
Qed.

Lemma registry_inv_core (s s' : Storage) :
  core s' = core s -> registry_inv s -> registry_inv s'.
Proof.
  unfold core. intros [= Hc Hr Hdc Hd Hu Ha Hs]. by apply registry_inv_frame.
Qed.

Lemma registry_inv_constructor (msg : Msg) : registry_inv (constructor msg).
Proof.
  clear this inputVerifier cleartext.
  assert (Hd : forall d, department_at (constructor msg) d =
            if decide (d = 1)
            then mkDepartment 1 "System" [] (sender msg) (block_timestamp msg) true
            else zeroDepartment).
  { intros d. unfold department_at. simpl. case_decide as Hd.
    - subst d. by rewrite lookup_insert_eq.
    - by rewrite lookup_insert_ne, lookup_empty. }
  assert (Hu : forall u, userDepartments_at (constructor msg) u = []).
  { intros u. unfold userDepartments_at. simpl. by rewrite lookup_empty. }
  constructor.
  - intros d. rewrite Hd. change (_departmentCounter (constructor msg)) with 1.
    case_decide; simpl; [split; [lia | done] | split; [done | lia]].
  - intros d. rewrite Hd. case_decide; simpl; [by subst | done].
  - intros d. rewrite Hd. case_decide; simpl; done.
  - intros d. rewrite Hd. case_decide; simpl; done.
  - intros d. rewrite Hd. case_decide; simpl; apply NoDup_nil_2.
  - intros u. rewrite Hu. apply NoDup_nil_2.
  - intros u d. rewrite Hd, Hu. case_decide; simpl; split; by intros ?%elem_of_nil.
Qed.

Lemma registry_fresh_department (s : Storage) (d : N) :
  registry_inv s -> _departmentCounter s < d ->
  members (department_at s d) = [].
Proof.
  intros R Hd. apply (reg_members_exist s R).
  destruct (d_exists (department_at s d)) eqn:Hex; [| done].
  apply (reg_exists s R) in Hex. lia.
Qed.

Lemma registry_inv_createDepartment msg nm adm s id s' :
  registry_inv s -> createDepartment msg nm adm s = (Ok id, s') ->
  registry_inv s'.
Proof.
  clear this inputVerifier cleartext.
  intros R (Hs & Hadm & Hnm & Hlt & -> & Hs')%createDepartment_ok_inv.
  change (s' = department_created msg nm adm s) in Hs'. subst s'.
  pose proof (registry_fresh_department s (_departmentCounter s + 1) R) as Hfresh.
  assert (Hnew : forall u, _departmentCounter s + 1 ∉ userDepartments_at s u).
  { intros u Hin%(reg_index_iff s R). rewrite Hfresh in Hin by lia.
    by apply elem_of_nil in Hin. }
  destruct R as [R1 R2 R3 R4 R5 R6 R7].
  constructor; intros;
    rewrite ?department_at_created, ?userDepartments_at_created in *.
  - change (_departmentCounter (department_created msg nm adm s))
      with (_departmentCounter s + 1).
    case_decide; simpl; [split; [lia | done] |]. rewrite R1. lia.
  - case_decide; simpl in *; [done | by apply R2].
  - case_decide; simpl in *; [done | by apply R3].
  - case_decide; simpl in *; [done | by apply R4].
  - case_decide; simpl; [apply NoDup_singleton | apply R5].
  - case_decide; [| apply R6]. apply NoDup_app. split; [apply R6 |].
    split; [| apply NoDup_singleton].
    intros x Hx ->%list_elem_of_singleton. by apply (Hnew adm).
  - repeat case_decide; simpl; subst.
    + rewrite elem_of_app, !list_elem_of_singleton. naive_solver.
    + rewrite elem_of_app, list_elem_of_singleton, R7. naive_solver.
    + rewrite list_elem_of_singleton. split; [| done].
      intros Hin. by apply Hnew in Hin.
    + apply R7.
Qed.

Lemma registry_inv_addDepartmentMember msg d mem s u s' :
  registry_inv s -> addDepartmentMember msg d mem s = (Ok u, s') ->
  registry_inv s'.
Proof.
  clear this inputVerifier cleartext.
  intros R (Hs & Hex & Hmem & Hnot & Hs')%addDepartmentMember_ok_inv.
  change (s' = member_added d mem s) in Hs'. subst s'.
  assert (Hnotin : mem ∉ members (department_at s d)).
  { intros Hin. assert (_isDepartmentMember s mem d = true); [| congruence].
    apply isDepartmentMember_true. auto. }
  assert (Hnotidx : d ∉ userDepartments_at s mem).
  { by intros Hin%(reg_index_iff s R). }
  destruct R as [R1 R2 R3 R4 R5 R6 R7].
  constructor; intros;
    rewrite ?department_at_added, ?userDepartments_at_added in *.
  - change (_departmentCounter (member_added d mem s)) with (_departmentCounter s).
    case_decide; simpl; subst; apply R1.
  - case_decide; simpl in *; subst; by apply R2.
  - case_decide; simpl in *; subst; by apply R3.
  - case_decide; simpl in *; subst; [congruence | by apply R4].
  - case_decide; simpl; [| apply R5]. apply NoDup_app. split; [apply R5 |].
    split; [| apply NoDup_singleton].
    by intros x Hx ->%list_elem_of_singleton.
  - case_decide; [| apply R6]. apply NoDup_app. split; [apply R6 |].
    split; [| apply NoDup_singleton].
    by intros x Hx ->%list_elem_of_singleton.
  - repeat case_decide; simpl; subst;
      rewrite ?elem_of_app, ?list_elem_of_singleton, ?R7; naive_solver.
Qed.

Lemma registry_inv_removeDepartmentMember msg d mem s u s' :
  registry_inv s -> removeDepartmentMember msg d mem s = (Ok u, s') ->
  registry_inv s'.
Proof.
  clear this inputVerifier cleartext.
  intros R (Hs & Hex & Hmem & Hnot & Hs')%removeDepartmentMember_ok_inv.
  change (s' = member_removed d mem s) in Hs'. subst s'.
  assert (Hin : mem ∈ members (department_at s d)).
  { apply isDepartmentMember_true in Hmem as [_ [?|?]]; [congruence | done]. }
  assert (Hidx : d ∈ userDepartments_at s mem) by (by apply (reg_index_iff s R)).
  destruct (remove_first_NoDup mem _ (reg_members_nodup s R d) Hin) as [Hnd1 Hel1].
  destruct (remove_first_NoDup d _ (reg_index_nodup s R mem) Hidx) as [Hnd2 Hel2].
  destruct R as [R1 R2 R3 R4 R5 R6 R7].
  constructor; intros;
    rewrite ?department_at_removed, ?userDepartments_at_removed in *.
  - change (_departmentCounter (member_removed d mem s)) with (_departmentCounter s).
    case_decide; simpl; subst; apply R1.
  - case_decide; simpl in *; subst; by apply R2.
  - case_decide; simpl in *; subst; by apply R3.
  - case_decide; simpl in *; subst; [congruence | by apply R4].
  - case_decide; simpl; [done | apply R5].
  - case_decide; [done | apply R6].
  - repeat case_decide; simpl; subst; rewrite ?Hel1, ?Hel2, ?R7; naive_solver.
Qed.

Lemma registry_inv_createRecord msg ty enc pr d p desc s id s' :
  registry_inv s -> createRecord msg ty enc pr d p desc s = (Ok id, s') ->
  registry_inv s'.
Proof.
  intros R (_ & _ & _ & _ & _ & _ & ->)%createRecord_ok_inv.
  by apply (registry_inv_frame s).
Qed.

Lemma registry_inv_step (s : Storage) (msg : Msg) (c : Call) :
  registry_inv s -> registry_inv (snd (transact (exec msg c) s)).
Proof.
  intros Hinv. unfold transact.
  destruct (exec msg c s) as [[v|e] s'] eqn:Hexec; [simpl | done].
  assert (Hkeep : forall m : M Value,
            keeps core m -> m s = (Ok v, s') -> registry_inv s').
  { intros m Hm Hrun. apply (registry_inv_core s); [| done].
    specialize (Hm s). by rewrite Hrun in Hm. }
  destruct c; simpl in Hexec;
    first
      [ apply fmapM_ok_inv in Hexec as (a & Hrun & _);
        first [ by eapply registry_inv_createDepartment
              | by eapply registry_inv_addDepartmentMember
              | by eapply registry_inv_removeDepartmentMember
              | by eapply registry_inv_createRecord ]
      | eapply Hkeep; [| exact Hexec]; apply keeps_fmapM;
        first [ apply keeps_core_calculateTotal
              | apply keeps_core_calculateNetIncome
              | apply keeps_core_saveCalculation
              | apply keeps_core_addAuditor
              | apply keeps_core_removeAuditor
              | apply keeps_readonly; solve [ auto with ledger ] ] ].
Qed.

Lemma reachable_registry_inv (s : Storage) : reachable s -> registry_inv s.
Proof.
  induction 1 as [msg | s msg c _ IH];
    [apply registry_inv_constructor | by apply registry_inv_step].
Qed.

(** ** What no transaction changes *)

Lemma record_at_created msg ty enc d p desc s i :
  record_at (record_created msg ty enc d p desc s) i =
  if decide (i = _recordCounter s + 1)
  then mkRecord i ty (Verified enc) d p desc (block_timestamp msg) (sender msg) true
  else record_at s i.
Proof.
  unfold record_at, record_created. simpl.
  case_decide as Hi; [subst i; by rewrite lookup_insert_eq |].
  by rewrite lookup_insert_ne.
Qed.

(** What a returning call did to the record store: nothing, or it was a
    [createRecord]. *)
Lemma exec_records (s s' : Storage) (msg : Msg) (c : Call) (v : Value) :
  exec msg c s = (Ok v, s') ->
  (_records s' = _records s /\ _recordCounter s' = _recordCounter s) \/
  (exists ty enc pr d p desc,
     c = CreateRecord ty enc pr d p desc /\
     _isDepartmentMember s (sender msg) d = true /\
     d_exists (department_at s d) = true /\
     String.length desc <> 0%nat /\
     _recordCounter s < max_uint256 /\
     s' = record_created msg ty enc d p desc s).
Proof.
  intros Hexec.
  assert (Hkeep : forall m : M Value, keeps core m -> m s = (Ok v, s') ->
            _records s' = _records s /\ _recordCounter s' = _recordCounter s).
  { intros m Hm Hrun. specialize (Hm s). rewrite Hrun in Hm.
    unfold core in Hm. simpl in Hm. by injection Hm as -> -> _ _ _ _ _. }
  destruct c; simpl in Hexec;
    first
      [ left; eapply Hkeep; [| exact Hexec]; apply keeps_fmapM;
        first [ apply keeps_core_calculateTotal
              | apply keeps_core_calculateNetIncome
              | apply keeps_core_saveCalculation
              | apply keeps_core_addAuditor
              | apply keeps_core_removeAuditor
              | apply keeps_readonly; solve [ auto with ledger ] ]
      | apply fmapM_ok_inv in Hexec as (a & Hrun & _) ].
  - apply createDepartment_ok_inv in Hrun as (_ & _ & _ & _ & _ & ->). by left.
  - apply addDepartmentMember_ok_inv in Hrun as (_ & _ & _ & _ & ->). by left.
  - apply removeDepartmentMember_ok_inv in Hrun as (_ & _ & _ & _ & ->). by left.
  - apply createRecord_ok_inv in Hrun as (Hm & Hex & Hdesc & _ & Hlt & _ & ->).
    right. by eexists _, _, _, _, _, _.
Qed.

(** What one transaction does to an existing department: at most its member
    list changes. *)
Lemma exec_departments (s s' : Storage) (msg : Msg) (c : Call) (v : Value) :
  registry_inv s ->
  exec msg c s = (Ok v, s') ->
  _systemAdmin s' = _systemAdmin s /\
  _departmentCounter s <= _departmentCounter s' <= _departmentCounter s + 1 /\
  forall d, d_exists (department_at s d) = true ->
    d_exists (department_at s' d) = true /\
    d_id (department_at s' d) = d_id (department_at s d) /\
    name (department_at s' d) = name (department_at s d) /\
    admin (department_at s' d) = admin (department_at s d) /\
    createdAt (department_at s' d) = createdAt (department_at s d) /\
    departmentAdmin_at s' d = departmentAdmin_at s d.
Proof.
  intros R Hexec.
  assert (Hkeep : forall m : M Value, keeps core m -> m s = (Ok v, s') ->
            _systemAdmin s' = _systemAdmin s /\
            _departmentCounter s' = _departmentCounter s /\
            _departments s' = _departments s /\
            _departmentAdmins s' = _departmentAdmins s).
  { intros m Hm Hrun. specialize (Hm s). rewrite Hrun in Hm.
    unfold core in Hm. simpl in Hm. by injection Hm as _ _ -> -> _ -> ->. }
  assert (Hsame : _systemAdmin s' = _systemAdmin s /\
            _departmentCounter s' = _departmentCounter s /\
            _departments s' = _departments s /\
            _departmentAdmins s' = _departmentAdmins s ->
            _systemAdmin s' = _systemAdmin s /\
            _departmentCounter s <= _departmentCounter s' <= _departmentCounter s + 1 /\
            forall d, d_exists (department_at s d) = true ->
              d_exists (department_at s' d) = true /\
              d_id (department_at s' d) = d_id (department_at s d) /\
              name (department_at s' d) = name (department_at s d) /\
              admin (department_at s' d) = admin (department_at s d) /\
              createdAt (department_at s' d) = createdAt (department_at s d) /\
              departmentAdmin_at s' d = departmentAdmin_at s d).
  { intros (Hs & Hc & Hd & Ha). split; [done |]. split; [lia |].
    intros d Hex. unfold department_at, departmentAdmin_at in *.
    by rewrite Hd, Ha. }
  destruct c; simpl in Hexec;
    first
      [ apply Hsame; eapply Hkeep; [| exact Hexec]; apply keeps_fmapM;
        first [ apply keeps_core_calculateTotal
              | apply keeps_core_calculateNetIncome
              | apply keeps_core_saveCalculation
              | apply keeps_core_addAuditor
              | apply keeps_core_removeAuditor
              | apply keeps_readonly; solve [ auto with ledger ] ]
      | apply fmapM_ok_inv in Hexec as (a & Hrun & _) ].
  - apply createDepartment_ok_inv in Hrun as (_ & _ & _ & _ & -> & Hs').
    change (s' = department_created msg name0 admin0 s) in Hs'. subst s'.
    split; [done |]. split; [simpl; lia |].
    intros d Hex. rewrite department_at_created.
    assert (Hd : d <> _departmentCounter s + 1).
    { apply (reg_exists s R) in Hex. lia. }
    rewrite decide_False by done. repeat split; try done.
    unfold departmentAdmin_at. simpl. by rewrite lookup_insert_ne.
  - apply addDepartmentMember_ok_inv in Hrun as (_ & _ & _ & _ & Hs').
    change (s' = member_added departmentId member s) in Hs'. subst s'.
    split; [done |]. split; [simpl; lia |].
    intros d Hex. rewrite department_at_added. by case_decide; subst.
  - apply removeDepartmentMember_ok_inv in Hrun as (_ & _ & _ & _ & Hs').
    change (s' = member_removed departmentId member s) in Hs'. subst s'.
    split; [done |]. split; [simpl; lia |].
    intros d Hex. rewrite department_at_removed. by case_decide; subst.
  - apply createRecord_ok_inv in Hrun as (_ & _ & _ & _ & _ & _ & ->).
    apply Hsame. done.
Qed.

(** X3.  One transaction on a reachable state leaves every existing record
    exactly as it is, and of every existing department it can change nothing
    but the member list: the department still exists with the same id, name,
    admin and creation time.  The system admin stays the same, and the
    record and department counters go up by at most one. *)
Theorem transactions_preserve_identity (s : Storage) (msg : Msg) (c : Call) :
  reachable s ->
  let s' := snd (transact (exec msg c) s) in
  _systemAdmin s' = _systemAdmin s /\
  (forall i, r_exists (record_at s i) = true -> record_at s' i = record_at s i) /\
  (forall d, d_exists (department_at s d) = true ->
     d_exists (department_at s' d) = true /\
     d_id (department_at s' d) = d_id (department_at s d) /\
     name (department_at s' d) = name (department_at s d) /\
     admin (department_at s' d) = admin (department_at s d) /\
     createdAt (department_at s' d) = createdAt (department_at s d) /\
     departmentAdmin_at s' d = departmentAdmin_at s d) /\
  _recordCounter s <= _recordCounter s' <= _recordCounter s + 1 /\
  _departmentCounter s <= _departmentCounter s' <= _departmentCounter s + 1.
Proof.
  intros Hreach s'. subst s'.
  pose proof (reachable_inv s Hreach) as Hinv.
  pose proof (reachable_registry_inv s Hreach) as R.
  unfold transact. destruct (exec msg c s) as [[v|e] s1] eqn:Hexec; simpl.
  2:{ repeat split; (done || lia). }
  destruct (exec_departments s s1 msg c v R Hexec) as (Hsys & Hdc & Hdept).
  split; [done |].
  destruct (exec_records s s1 msg c v Hexec)
    as [[Hrec Hcnt] | (ty & enc & pr & d & p & desc & _ & _ & _ & _ & Hlt & ->)].
  - split; [| split; [done | split; [lia | done]]].
    intros i _. unfold record_at. by rewrite Hrec.
  - split; [| split; [done | split; [simpl; lia | done]]].
    intros i Hex. rewrite record_at_created.
    apply (inv_records s Hinv) in Hex. rewrite decide_False by lia. done.
Qed.

(** ** Invariants of the record store *)

Record records_inv (s : Storage) : Prop := mkRecordsInv {
  rec_id : forall i,
    r_exists (record_at s i) = true -> r_id (record_at s i) = i;
  rec_department : forall i,
    r_exists (record_at s i) = true ->
    d_exists (department_at s (r_departmentId (record_at s i))) = true;
  rec_description : forall i,
    r_exists (record_at s i) = true ->
    String.length (description (record_at s i)) <> 0%nat;
  rec_amount : forall i,
    r_exists (record_at s i) = true ->
    exists h, amount (record_at s i) = Verified h;
  rec_grants : forall i,
    r_exists (record_at s i) = true ->
    (amount (record_at s i), creator (record_at s i)) ∈ acl s /\
    (amount (record_at s i), this) ∈ acl s
}.

Lemma records_inv_constructor (msg : Msg) : records_inv (constructor msg).
Proof.
  constructor; intros i; unfold record_at; simpl; by rewrite lookup_empty.
Qed.

Lemma records_inv_step (s : Storage) (msg : Msg) (c : Call) :
  inv s -> registry_inv s -> records_inv s ->
  records_inv (snd (transact (exec msg c) s)).
Proof.
  intros Hinv R [V1 V2 V3 V4 V5].
  pose proof (grows_exec msg c s) as Hgrow.
  unfold transact. destruct (exec msg c s) as [[v|e] s1] eqn:Hexec; simpl in *.
  2:{ by constructor. }
  destruct (exec_departments s s1 msg c v R Hexec) as (_ & _ & Hdept).
  destruct (exec_records s s1 msg c v Hexec)
    as [[Hrec Hcnt] | (ty & enc & pr & d & p & desc & _ & Hmem & Hex & Hdesc & Hlt & ->)].
  - assert (Hat : forall i, record_at s1 i = record_at s i).
    { intros i. unfold record_at. by rewrite Hrec. }
    constructor; intros i; rewrite !Hat; intros Hi.
    + by apply V1.
    + by apply Hdept, V2.
    + by apply V3.
    + by apply V4.
    + destruct (V5 i Hi) as [Hc Ht]. split; by apply Hgrow.
  - constructor; intros i; rewrite !record_at_created; case_decide; simpl;
      intros Hi; subst.
    + done.
    + by apply V1.
    + done.
    + by apply V2.
    + done.
    + by apply V3.
    + by eexists.
    + by apply V4.
    + rewrite !elem_of_union, !elem_of_singleton. auto.
    + destruct (V5 i Hi) as [Hc Ht]. rewrite !elem_of_union. auto.
Qed.

Lemma reachable_records_inv (s : Storage) : reachable s -> records_inv s.
Proof.
  induction 1 as [msg | s msg c Hreach IH]; [apply records_inv_constructor |].
  apply records_inv_step; [by apply reachable_inv | | done].
  by apply reachable_registry_inv.
Qed.

(** X12.  In every reachable state each existing record carries its own id,
    belongs to an existing department, has a non-empty description and an
    amount that came from a verified external ciphertext, and that amount
    is granted to the record's creator and to the contract.  The existing
    records are exactly those with ids from 1 to the record counter. *)
Theorem records_well_formed (s : Storage) (i : uint256) :
  reachable s ->
  (r_exists (record_at s i) = true <-> 1 <= i <= _recordCounter s) /\
  (r_exists (record_at s i) = true ->
   r_id (record_at s i) = i /\
   d_exists (department_at s (r_departmentId (record_at s i))) = true /\
   String.length (description (record_at s i)) <> 0%nat /\
   (exists h, amount (record_at s i) = Verified h) /\
   isAllowed s (amount (record_at s i)) (creator (record_at s i)) = true /\
   isAllowed s (amount (record_at s i)) this = true).
Proof.
  intros Hreach.
  pose proof (reachable_inv s Hreach) as Hinv.
  pose proof (reachable_records_inv s Hreach) as [V1 V2 V3 V4 V5].
  split; [apply (inv_records s Hinv) |].
  intros Hi. rewrite !isAllowed_true.
  destruct (V5 i Hi). auto 10.
Qed.

(** ** Departments and the reverse index *)

(** X2.  In every reachable state the existing departments are exactly those
    with ids from 1 to the department counter, which are the ids
    [getDepartment] answers for; an existing department carries its own id
    and a non-empty name, its admin is the one [_departmentAdmins] records,
    and its member list has no duplicates. *)
Theorem departments_dense (s : Storage) (d : uint256) :
  reachable s ->
  (d_exists (department_at s d) = true <-> 1 <= d <= _departmentCounter s) /\
  ((exists r, getDepartment d s = (Ok r, s)) <-> 1 <= d <= _departmentCounter s) /\
  (1 <= d <= _departmentCounter s ->
   getDepartment d s =
     (Ok (d, name (department_at s d), members (department_at s d),
          admin (department_at s d), createdAt (department_at s d)), s) /\
   String.length (name (department_at s d)) <> 0%nat /\
   departmentAdmin_at s d = admin (department_at s d) /\
   NoDup (members (department_at s d))) /\
  (~ 1 <= d <= _departmentCounter s ->
   getDepartment d s = (Revert "ShadowLedger: invalid department", s)).
Proof.
  intros Hreach.
  pose proof (reachable_inv s Hreach) as Hinv.
  pose proof (reachable_registry_inv s Hreach) as R.
  pose proof (reg_exists s R d) as Hex.
  assert (Hget : d_exists (department_at s d) = true ->
    getDepartment d s =
     (Ok (d, name (department_at s d), members (department_at s d),
          admin (department_at s d), createdAt (department_at s d)), s)).
  { intros Hd. unfold getDepartment, validDepartment. monad_unfold.
    rewrite Hd. simpl. by rewrite (reg_id s R d Hd). }
  assert (Hfail : d_exists (department_at s d) = false ->
    getDepartment d s = (Revert "ShadowLedger: invalid department", s)).
  { intros Hd. unfold getDepartment, validDepartment. monad_unfold.
    by rewrite Hd. }
  split; [done |]. split; [| split].
  - rewrite <- Hex. split.
    + intros [r Hr]. destruct (d_exists (department_at s d)); [done |].
      rewrite Hfail in Hr by done. done.
    + intros Hd. eexists. by apply Hget.
  - intros Hd%Hex. split; [by apply Hget |].
    split; [by apply (reg_name s R) |].
    split; [by apply (inv_admins s Hinv) | apply (reg_members_nodup s R)].
  - intros Hd. apply Hfail.
    destruct (d_exists (department_at s d)) eqn:Hd'; [| done].
    exfalso. apply Hd. by apply Hex.
Qed.

(** X7.  In every reachable state the member lists and the reverse index
    agree in both directions: [u] is in the member list of department [d]
    exactly when [d] is in the list [getUserDepartments u] returns, and that
    list has no duplicates.  The membership test is then: [d] is in that
    list, or [u] is the system admin and [d] is the System department. *)
Theorem reverse_index_consistent (s : Storage) (u : address) (d : uint256) :
  reachable s ->
  getUserDepartments u s = (Ok (userDepartments_at s u), s) /\
  NoDup (userDepartments_at s u) /\
  (d ∈ userDepartments_at s u <-> u ∈ members (department_at s d)) /\
  (_isDepartmentMember s u d = true <->
   d ∈ userDepartments_at s u \/ (d = 1 /\ u = _systemAdmin s)).
Proof.
  intros Hreach.
  pose proof (reachable_inv s Hreach) as Hinv.
  pose proof (reachable_registry_inv s Hreach) as R.
  split; [done |]. split; [apply (reg_index_nodup s R) |].
  split; [apply (reg_index_iff s R) |].
  rewrite isDepartmentMember_true, (reg_index_iff s R). split.
  - intros [Hex [Hadm|Hin]]; [| by left].
    destruct (decide (d = 1)) as [->|Hd].
    + right. split; [done |]. by rewrite <- Hadm, (inv_system_admin s Hinv).
    + left. rewrite <- Hadm. by apply (inv_admin_member s Hinv).
  - intros [Hin | [-> ->]].
    + split; [| by right].
      destruct (d_exists (department_at s d)) eqn:Hex; [done |].
      rewrite (reg_members_exist s R d Hex) in Hin. by apply elem_of_nil in Hin.
    + split; [apply (inv_system_exists s Hinv) |]. left.
      apply (inv_system_admin s Hinv).
Qed.

(** ** Creating departments and managing members *)

(** X1.  Below the overflow threshold of the department counter,
    [createDepartment] succeeds exactly when the sender is the system admin,
    the name is non-empty and the admin is not the null address, and the
    checks fail in that order with their own reasons.  It returns the next
    id; afterwards [getDepartmentCount] is that id, [getDepartment] returns
    the new department with the admin as its only member, the id is appended
    to the admin's reverse index, and no other department has changed. *)
Theorem createDepartment_spec (s : Storage) (msg : Msg) (nm : string)
    (adm : address) :
  _departmentCounter s < max_uint256 ->
  ((exists id s', transact (createDepartment msg nm adm) s = (Ok id, s')) <->
   (sender msg = _systemAdmin s /\ String.length nm <> 0%nat /\ adm <> 0)) /\
  (forall id s', transact (createDepartment msg nm adm) s = (Ok id, s') ->
     id = _departmentCounter s + 1 /\
     getDepartmentCount s' = (Ok id, s') /\
     getDepartment id s' = (Ok (id, nm, [adm], adm, block_timestamp msg), s') /\
     getUserDepartments adm s' = (Ok (userDepartments_at s adm ++ [id]), s') /\
     _isDepartmentMember s' adm id = true /\
     (forall d, d <> id -> department_at s' d = department_at s d) /\
     (forall u, u <> adm -> userDepartments_at s' u = userDepartments_at s u)) /\
  (sender msg <> _systemAdmin s ->
   transact (createDepartment msg nm adm) s
   = (Revert "ShadowLedger: only system admin", s)) /\
  (sender msg = _systemAdmin s -> String.length nm = 0%nat ->
   transact (createDepartment msg nm adm) s
   = (Revert "ShadowLedger: empty name", s)) /\
  (sender msg = _systemAdmin s -> String.length nm <> 0%nat -> adm = 0 ->
   transact (createDepartment msg nm adm) s
   = (Revert "ShadowLedger: invalid admin", s)).
Proof.
  clear this inputVerifier cleartext.
  intros Hlt. split; [| split; [| split; [| split]]].
  - split.
    + intros (id & s' & Hrun%transact_ok_inv).
      apply createDepartment_ok_inv in Hrun. tauto.
    + intros (Hs & Hnm & Hadm). eexists _, _. apply transact_ok.
      by apply createDepartment_ok.
  - intros id s' Hrun%transact_ok_inv.
    apply createDepartment_ok_inv in Hrun as (Hs & Hadm & Hnm & _ & -> & Hs').
    change (s' = department_created msg nm adm s) in Hs'. subst s'.
    assert (Hd : department_at (department_created msg nm adm s)
                   (_departmentCounter s + 1)
                 = mkDepartment (_departmentCounter s + 1) nm [adm] adm
                     (block_timestamp msg) true).
    { by rewrite department_at_created, decide_True. }
    split; [done |]. split; [done |]. split; [| split; [| split; [| split]]].
    + unfold getDepartment, validDepartment. monad_unfold.
      rewrite Hd. cbn [d_exists]. by rewrite Hd.
    + unfold getUserDepartments. monad_unfold.
      by rewrite userDepartments_at_created, decide_True.
    + unfold _isDepartmentMember. rewrite Hd. simpl. by rewrite N.eqb_refl.
    + intros d Hne. by rewrite department_at_created, decide_False.
    + intros u Hne. by rewrite userDepartments_at_created, decide_False.
  - intros Hs. apply (transact_revert _ s s).
    unfold createDepartment, onlySystemAdmin. monad_unfold.
    by destruct (N.eqb_spec (sender msg) (_systemAdmin s)).
  - intros Hs Hnm. apply (transact_revert _ s s).
    unfold createDepartment, onlySystemAdmin. monad_unfold.
    by rewrite Hs, N.eqb_refl, Hnm.
  - intros Hs Hnm ->. apply (transact_revert _ s s).
    unfold createDepartment, onlySystemAdmin. monad_unfold.
    rewrite Hs, N.eqb_refl. by destruct (Nat.eqb_spec (String.length nm) 0).
Qed.

(** X4.  [addDepartmentMember] succeeds exactly when the sender is the
    recorded admin of the department, the department exists, the member is
    not the null address and does not pass the membership test yet; a
    candidate that is already a member (the admin included) is rejected as
    such.  On success the member is appended to the member list and the
    department to the member's reverse index, the member passes the
    membership test, and no other department or user is touched. *)
Theorem addDepartmentMember_spec (s : Storage) (msg : Msg) (d : uint256)
    (mem : address) :
  ((exists s', transact (addDepartmentMember msg d mem) s = (Ok tt, s')) <->
   (departmentAdmin_at s d = sender msg /\
    d_exists (department_at s d) = true /\ mem <> 0 /\
    _isDepartmentMember s mem d = false)) /\
  (forall s', transact (addDepartmentMember msg d mem) s = (Ok tt, s') ->
     members (department_at s' d) = members (department_at s d) ++ [mem] /\
     userDepartments_at s' mem = userDepartments_at s mem ++ [d] /\
     _isDepartmentMember s' mem d = true /\
     admin (department_at s' d) = admin (department_at s d) /\
     (forall d', d' <> d -> department_at s' d' = department_at s d') /\
     (forall u, u <> mem -> userDepartments_at s' u = userDepartments_at s u) /\
     _records s' = _records s /\ acl s' = acl s) /\
  (departmentAdmin_at s d = sender msg ->
   d_exists (department_at s d) = true -> mem <> 0 ->
   _isDepartmentMember s mem d = true ->
   transact (addDepartmentMember msg d mem) s
   = (Revert "ShadowLedger: already member", s)).
Proof.
  clear this inputVerifier cleartext.
  split; [| split].
  - split.
    + intros (s' & Hrun%transact_ok_inv).
      apply addDepartmentMember_ok_inv in Hrun. tauto.
    + intros (Hs & Hex & Hmem & Hnot). eexists. apply transact_ok.
      by apply addDepartmentMember_ok.
  - intros s' Hrun%transact_ok_inv.
    apply addDepartmentMember_ok_inv in Hrun as (Hs & Hex & Hmem & Hnot & Hs').
    change (s' = member_added d mem s) in Hs'. subst s'.
    assert (Hd : department_at (member_added d mem s) d
                 = set_members (members (department_at s d) ++ [mem])
                     (department_at s d)).
    { by rewrite department_at_added, decide_True. }
    rewrite Hd. simpl.
    split; [done |]. split; [| split; [| split; [done | split; [| split]]]].
    + by rewrite userDepartments_at_added, decide_True.
    + apply isDepartmentMember_true. rewrite Hd. simpl. split; [done |].
      right. apply elem_of_app. right. by apply list_elem_of_singleton.
    + intros d' Hne. by rewrite department_at_added, decide_False.
    + intros u Hne. by rewrite userDepartments_at_added, decide_False.
    + done.
  - intros Hs Hex Hmem Hin. apply (transact_revert _ s s).
    unfold addDepartmentMember. unfold_modifiers. monad_unfold.
    rewrite Hs, N.eqb_refl, Hex.
    destruct (N.eqb_spec mem 0); [done |]. simpl. by rewrite Hin.
Qed.

(** X5.  In a reachable state, when the admin of a department removes a
    member other than itself, the call succeeds.  The member list loses
    exactly that member (putting it back in front gives a permutation of the
    old list, so everybody else stays), the member's reverse index loses
    exactly that department, and the member no longer passes the membership
    test.  Removing somebody who is not a member is rejected as such. *)
Theorem removeDepartmentMember_removes (s : Storage) (msg : Msg)
    (d : uint256) (mem : address) :
  reachable s ->
  departmentAdmin_at s d = sender msg ->
  d_exists (department_at s d) = true ->
  (_isDepartmentMember s mem d = false ->
   transact (removeDepartmentMember msg d mem) s
   = (Revert "ShadowLedger: not a member", s)) /\
  (_isDepartmentMember s mem d = true ->
   mem <> admin (department_at s d) ->
   exists s',
     transact (removeDepartmentMember msg d mem) s = (Ok tt, s') /\
     mem :: members (department_at s' d) ≡ₚ members (department_at s d) /\
     (mem ∉ members (department_at s' d)) /\
     d :: userDepartments_at s' mem ≡ₚ userDepartments_at s mem /\
     (d ∉ userDepartments_at s' mem) /\
     _isDepartmentMember s' mem d = false /\
     _isDepartmentMember s' (admin (department_at s d)) d = true /\
     (forall d', d' <> d -> department_at s' d' = department_at s d') /\
     (forall u, u <> mem -> userDepartments_at s' u = userDepartments_at s u)).
Proof.
  clear cleartext.
  intros Hreach Hs Hex.
  pose proof (reachable_registry_inv s Hreach) as R.
  split.
  - intros Hnot. apply (transact_revert _ s s).
    unfold removeDepartmentMember. unfold_modifiers. monad_unfold.
    by rewrite Hs, N.eqb_refl, Hex, Hnot.
  - intros Hmem Hne. exists (member_removed d mem s).
    assert (Hin : mem ∈ members (department_at s d)).
    { apply isDepartmentMember_true in Hmem as [_ [?|?]]; [congruence | done]. }
    assert (Hidx : d ∈ userDepartments_at s mem) by (by apply (reg_index_iff s R)).
    destruct (remove_first_NoDup mem _ (reg_members_nodup s R d) Hin) as [Hnd1 Hel1].
    destruct (remove_first_NoDup d _ (reg_index_nodup s R mem) Hidx) as [Hnd2 Hel2].
    assert (Hd : department_at (member_removed d mem s) d
                 = set_members (remove_first mem (members (department_at s d)))
                     (department_at s d)).
    { by rewrite department_at_removed, decide_True. }
    assert (Hu : userDepartments_at (member_removed d mem s) mem
                 = remove_first d (userDepartments_at s mem)).
    { by rewrite userDepartments_at_removed, decide_True. }
    split; [apply transact_ok; by apply removeDepartmentMember_ok |].
    rewrite Hd, Hu. simpl.
    split; [by apply remove_first_perm |].
    split; [rewrite Hel1; by intros [_ ?] |].
    split; [by apply remove_first_perm |].
    split; [rewrite Hel2; by intros [_ ?] |].
    split; [| split; [| split]].
    + destruct (_isDepartmentMember (member_removed d mem s) mem d) eqn:Hm'; [| done].
      apply isDepartmentMember_true in Hm' as [_ Hm']. rewrite Hd in Hm'.
      simpl in Hm'. rewrite Hel1 in Hm'. naive_solver.
    + apply isDepartmentMember_true. rewrite Hd. simpl. auto.
    + intros d' Hne'. by rewrite department_at_removed, decide_False.
    + intros u Hne'. by rewrite userDepartments_at_removed, decide_False.
Qed.

(** X6.  In a reachable state, adding a member and then removing it again
    brings back the member list and the member's reverse index exactly as
    they were, order included, and with them every department and every
    user's index; the records, the saved calculations, the grants, the
    auditors, the administrators and the three counters were never
    touched. *)
Theorem add_then_remove_restores (s s1 : Storage) (msg msg' : Msg)
    (d : uint256) (mem : address) :
  reachable s ->
  sender msg' = sender msg ->
  transact (addDepartmentMember msg d mem) s = (Ok tt, s1) ->
  exists s2,
    transact (removeDepartmentMember msg' d mem) s1 = (Ok tt, s2) /\
    (forall d', department_at s2 d' = department_at s d') /\
    (forall u, userDepartments_at s2 u = userDepartments_at s u) /\
    (forall u d', _isDepartmentMember s2 u d' = _isDepartmentMember s u d') /\
    _records s2 = _records s /\ acl s2 = acl s /\ _auditors s2 = _auditors s /\
    _departmentAdmins s2 = _departmentAdmins s /\
    _recordCounter s2 = _recordCounter s /\
    _departmentCounter s2 = _departmentCounter s /\
    _calculationCounter s2 = _calculationCounter s /\
    _calculations s2 = _calculations s /\
    _systemAdmin s2 = _systemAdmin s.
Proof.
  clear cleartext.
  intros Hreach Hsender Hadd%transact_ok_inv.
  pose proof (reachable_registry_inv s Hreach) as R.
  apply addDepartmentMember_ok_inv in Hadd as (Hs & Hex & Hmem & Hnot & Hs1).
  change (s1 = member_added d mem s) in Hs1. subst s1.
  assert (Hnotin : mem ∉ members (department_at s d)).
  { intros Hin. assert (_isDepartmentMember s mem d = true); [| congruence].
    apply isDepartmentMember_true. auto. }
  assert (Hnotidx : d ∉ userDepartments_at s mem).
  { by intros Hin%(reg_index_iff s R). }
  assert (Hadm : admin (department_at s d) <> mem).
  { intros Heq. assert (_isDepartmentMember s mem d = true); [| congruence].
    apply isDepartmentMember_true. auto. }
  assert (Hd1 : department_at (member_added d mem s) d
               = set_members (members (department_at s d) ++ [mem])
                   (department_at s d)).
  { by rewrite department_at_added, decide_True. }
  assert (Hu1 : userDepartments_at (member_added d mem s) mem
               = userDepartments_at s mem ++ [d]).
  { by rewrite userDepartments_at_added, decide_True. }
  exists (member_removed d mem (member_added d mem s)).
  assert (Hdept : forall d', department_at
                    (member_removed d mem (member_added d mem s)) d'
                  = department_at s d').
  { intros d'. rewrite department_at_removed. case_decide as Hd'.
    - subst d'. rewrite Hd1. simpl. rewrite remove_first_app_last by done.
      by destruct (department_at s d).
    - by rewrite department_at_added, decide_False. }
  split; [| split; [done | split; [| split]]].
  - apply transact_ok. apply removeDepartmentMember_ok.
    + by rewrite Hsender.
    + rewrite Hd1. done.
    + apply isDepartmentMember_true. rewrite Hd1. simpl. split; [done |].
      right. apply elem_of_app. right. by apply list_elem_of_singleton.
    + rewrite Hd1. simpl. congruence.
  - intros u. rewrite userDepartments_at_removed. case_decide as Hu.
    + subst u. rewrite Hu1. by apply remove_first_app_last.
    + by rewrite userDepartments_at_added, decide_False.
  - intros u d'. unfold _isDepartmentMember. by rewrite Hdept.
  - done.
Qed.

(** ** Reading and creating records *)

(** X8.  In a reachable state [getRecord] answers for the ids from 1 to the
    record counter and rejects every other id as an invalid record; for a
    valid id it returns the stored record, which carries that id, to a
    sender who is a member of the record's department or a current auditor,
    and denies access to everybody else. *)
Theorem getRecord_access (s : Storage) (msg : Msg) (i : uint256) :
  reachable s ->
  (~ 1 <= i <= _recordCounter s ->
   transact (getRecord msg i) s = (Revert "ShadowLedger: invalid record", s)) /\
  (1 <= i <= _recordCounter s ->
   r_id (record_at s i) = i /\
   (_isDepartmentMember s (sender msg) (r_departmentId (record_at s i)) = true \/
    auditor_at s (sender msg) = true ->
    transact (getRecord msg i) s = (Ok (record_at s i), s)) /\
   (_isDepartmentMember s (sender msg) (r_departmentId (record_at s i)) = false ->
    auditor_at s (sender msg) = false ->
    transact (getRecord msg i) s = (Revert "ShadowLedger: access denied", s))).
Proof.
  intros Hreach.
  pose proof (reachable_inv s Hreach) as Hinv.
  pose proof (reachable_records_inv s Hreach) as V.
  pose proof (inv_records s Hinv i) as Hrange.
  split.
  - intros Hi. apply (transact_revert _ s s).
    unfold getRecord, validRecord. monad_unfold.
    destruct (r_exists (record_at s i)) eqn:Hex; [| done].
    exfalso. apply Hi. by apply Hrange.
  - intros Hex%Hrange. split; [by apply (rec_id s V) |]. split.
    + intros Hacc. apply transact_ok.
      unfold getRecord, validRecord. monad_unfold. rewrite Hex.
      by destruct Hacc as [-> | ->]; rewrite ?orb_true_r.
    + intros Hm Ha. apply (transact_revert _ s s).
      unfold getRecord, validRecord. monad_unfold. by rewrite Hex, Hm, Ha.
Qed.

Lemma filter_all {A} (P : A -> Prop) `{forall x, Decision (P x)} (l : list A) :
  (forall x, x ∈ l -> P x) -> filter P l = l.
Proof.
  induction l as [|x l IH]; intros Hall; [done |].
  rewrite filter_cons_True by (apply Hall; left).
  f_equal. apply IH. intros y Hy. apply Hall. by right.
Qed.

Lemma drop_iota (k : nat) (i : N) (n : nat) :
  drop k (iota i n) = iota (i + N.of_nat k) (n - k).
Proof.
  revert i n. induction k as [|k IH]; intros i n.
  - rewrite N.add_0_r, Nat.sub_0_r. done.
  - destruct n as [|n]; simpl; [done |]. rewrite IH. f_equal. lia.
Qed.

Lemma take_iota (m : nat) (i : N) (n : nat) :
  take m (iota i n) = iota i (Nat.min m n).
Proof.
  revert i n. induction m as [|m IH]; intros i [|n]; simpl; try done.
  by rewrite IH.
Qed.

(** X9.  [getAllRecords] is for current auditors only.  In a reachable state
    with the record counter below the overflow threshold, an auditor who
    asks for a [limit] above [2^64 - 1] makes the allocation of the page
    panic; with a [limit] of at most [2^64 - 1] the auditor gets the
    consecutive ids that start at [offset + 1], as many as [limit] allows
    and the record counter has. *)
Theorem getAllRecords_page (s : Storage) (msg : Msg) (offset limit : uint256) :
  reachable s ->
  _recordCounter s < max_uint256 ->
  (auditor_at s (sender msg) = false ->
   transact (getAllRecords msg offset limit) s
   = (Revert "ShadowLedger: only auditor", s)) /\
  (auditor_at s (sender msg) = true -> max_uint64 < limit ->
   transact (getAllRecords msg offset limit) s
   = (Revert "Panic(0x41)", s)) /\
  (auditor_at s (sender msg) = true -> limit <= max_uint64 ->
   transact (getAllRecords msg offset limit) s
   = (Ok (iota (offset + 1)
            (Nat.min (N.to_nat limit) (N.to_nat (_recordCounter s - offset)))), s)).
Proof.
  intros Hreach Hlt. pose proof (reachable_inv s Hreach) as Hinv.
  split; [| split].
  - intros Ha. apply (transact_revert _ s s).
    unfold getAllRecords, onlyAuditor. monad_unfold. by rewrite Ha.
  - intros Ha Hlim. apply (transact_revert _ s s).
    unfold getAllRecords, onlyAuditor. monad_unfold. rewrite Ha.
    by apply scan_records_panic.
  - intros Ha Hlim. apply transact_ok.
    unfold getAllRecords, onlyAuditor. monad_unfold. rewrite Ha.
    rewrite scan_records_ok by done. do 2 f_equal.
    rewrite filter_all.
    + unfold record_ids. rewrite drop_iota, take_iota. f_equal; lia.
    + intros j Hj%elem_of_record_ids. by apply (inv_records s Hinv).
Qed.

(** X10.  Below the overflow threshold of the record counter [createRecord]
    succeeds exactly when the sender passes the membership test of the
    department, the description is non-empty and the input proof verifies.
    It returns the next id; afterwards [getRecordCount] is that id, the
    record is stored under it with the given fields, the sender as creator
    and the block time, the creator can read it back with [getRecord], and
    no other record and no department has changed. *)
Theorem createRecord_spec (s : Storage) (msg : Msg) (ty : RecordType)
    (enc : N) (pr : bytes) (d p : uint256) (desc : string) :
  _recordCounter s < max_uint256 ->
  ((exists id s',
      transact (createRecord msg ty enc pr d p desc) s = (Ok id, s')) <->
   (_isDepartmentMember s (sender msg) d = true /\
    String.length desc <> 0%nat /\
    inputVerifier enc pr this (sender msg) = true)) /\
  (forall id s',
     transact (createRecord msg ty enc pr d p desc) s = (Ok id, s') ->
     id = _recordCounter s + 1 /\
     getRecordCount s' = (Ok id, s') /\
     record_at s' id
     = mkRecord id ty (Verified enc) d p desc (block_timestamp msg) (sender msg) true /\
     getRecord msg id s' = (Ok (record_at s' id), s') /\
     (forall i, i <> id -> record_at s' i = record_at s i) /\
     _departments s' = _departments s /\
     _userDepartments s' = _userDepartments s /\
     _auditors s' = _auditors s).
Proof.
  intros Hlt. split.
  - split.
    + intros (id & s' & Hrun%transact_ok_inv).
      apply createRecord_ok_inv in Hrun as (? & ? & ? & ? & _). auto.
    + intros (Hm & Hdesc & Hv). eexists _, _. apply transact_ok.
      by apply createRecord_ok.
  - intros id s' Hrun%transact_ok_inv.
    apply createRecord_ok_inv in Hrun as (Hm & Hex & Hdesc & Hv & _ & -> & ->).
    assert (Hr : record_at (record_created msg ty enc d p desc s)
                   (_recordCounter s + 1)
                 = mkRecord (_recordCounter s + 1) ty (Verified enc) d p desc
                     (block_timestamp msg) (sender msg) true).
    { by rewrite record_at_created, decide_True. }
    split; [done |]. split; [done |]. split; [done |].
    split; [| split; [| done]].
    + unfold getRecord, validRecord. monad_unfold.
      repeat (rewrite Hr; cbn [r_exists r_departmentId]).
      change (_isDepartmentMember (record_created msg ty enc d p desc s) (sender msg) d)
        with (_isDepartmentMember s (sender msg) d).
      by rewrite Hm.
    + intros i Hi. by rewrite record_at_created, decide_False.
Qed.

(** A reverting scan can only have panicked on its increment. *)
Lemma for_upto_revert_reason {A} (cond : A -> bool) (body : N -> A -> M A)
    (step : N -> A -> Storage -> A * Storage) :
  (forall j a s, body j a s = (Ok (fst (step j a s)), snd (step j a s))) ->
  forall fuel i hi a s e s',
    for_upto fuel i hi cond body a s = (Revert e, s') -> e = "Panic(0x11)".
Proof.
  intros Hbody fuel. induction fuel as [|fuel IH]; intros i hi a s e s'; simpl.
  - done.
  - destruct ((i <=? hi) && cond a); [| done].
    unfold bind at 1. rewrite Hbody. unfold bind at 1, checked_incr.
    destruct (i <? max_uint256).
    + unfold ret at 1. apply IH.
    + unfold revert. by intros [= <- _].
Qed.

(** A reverting page scan has panicked: on an allocation or on the
    increment of the loop. *)
Lemma scan_records_revert_reason f off lim s e s' :
  scan_records f off lim s = (Revert e, s') ->
  e = "Panic(0x11)" \/ e = "Panic(0x41)".
Proof.
  unfold scan_records, new_array. monad_unfold.
  destruct (lim <=? max_uint64); [| intros [= <- _]; by right].
  destruct (for_upto _ _ _ _ _ _ s) as [[[[arr c] k]|e'] s2] eqn:Hloop.
  - destruct (c <=? max_uint64); [done |]. intros [= <- _]. by right.
  - intros [= <- _]. left.
    eapply (for_upto_revert_reason _ _
              (fun j a s0 => (scan_step f off s0 j a, s0))); [| exact Hloop].
    intros. apply scan_body_eq.
Qed.

(** X11.  In [createRecord] and [getDepartmentRecords] the membership check
    comes first and already fails for a department that does not exist, so
    such a department is reported as "only department member"; neither
    function ever reverts with "invalid department". *)
Theorem validDepartment_never_fires (s : Storage) (msg : Msg) (ty : RecordType)
    (enc : N) (pr : bytes) (d p offset limit : uint256) (desc : string) :
  (_isDepartmentMember s (sender msg) d = false ->
   transact (createRecord msg ty enc pr d p desc) s
   = (Revert "ShadowLedger: only department member", s) /\
   transact (getDepartmentRecords msg d offset limit) s
   = (Revert "ShadowLedger: only department member", s)) /\
  (d_exists (department_at s d) = false ->
   _isDepartmentMember s (sender msg) d = false) /\
  (forall e s1, createRecord msg ty enc pr d p desc s = (Revert e, s1) ->
     e <> "ShadowLedger: invalid department") /\
  (forall e s1, getDepartmentRecords msg d offset limit s = (Revert e, s1) ->
     e <> "ShadowLedger: invalid department").
Proof.
  assert (Hex : _isDepartmentMember s (sender msg) d = true ->
                d_exists (department_at s d) = true).
  { unfold _isDepartmentMember. by destruct (d_exists (department_at s d)). }
  split; [| split; [| split]].
  - intros Hm. split; apply (transact_revert _ s s).
    + unfold createRecord, onlyDepartmentMember. monad_unfold. by rewrite Hm.
    + unfold getDepartmentRecords, onlyDepartmentMember. monad_unfold. by rewrite Hm.
  - intros Hd. destruct (_isDepartmentMember s (sender msg) d) eqn:Hm; [| done].
    rewrite Hex in Hd; done.
  - intros e s1.
    unfold createRecord, FHE_fromExternal, FHE_allowThis, FHE_allow.
    unfold_modifiers. monad_unfold.
    destruct (_isDepartmentMember s (sender msg) d) eqn:Hm; [| by intros [= <- _]].
    rewrite (Hex eq_refl).
    destruct (negb (String.length desc =? 0)%nat); [| by intros [= <- _]].
    destruct (inputVerifier enc pr this (sender msg)); monad_unfold;
      [| by intros [= <- _]].
    destruct (_recordCounter s <? max_uint256); [| by intros [= <- _]].
    unfold departmentAdmin_at at 1. simpl.
    by destruct (default 0 (_departmentAdmins s !! d) =? sender msg).
  - intros e s1. unfold getDepartmentRecords. unfold_modifiers. monad_unfold.
    destruct (_isDepartmentMember s (sender msg) d) eqn:Hm; [| by intros [= <- _]].
    rewrite (Hex eq_refl).
    by intros [-> | ->]%scan_records_revert_reason.
Qed.

(** ** More on aggregation *)

(** X14.  In a reachable state with the record counter below the overflow
    threshold, when every requested department exists,
    [calculateTotalExpense] returns a handle that decrypts to the sum modulo
    2^128 of the amounts of exactly the existing Expense records of those
    departments that pass the project filter; when those records are two,
    of 500 and 300, the handle decrypts to 800. *)
Theorem calculateTotalExpense_sums (s : Storage) (msg : Msg)
    (departmentIds : list N) (projectId : N) :
  reachable s ->
  _recordCounter s < max_uint256 ->
  (forall d, d ∈ departmentIds -> d_exists (department_at s d) = true) ->
  exists h s',
    transact (calculateTotalExpense msg departmentIds projectId) s = (Ok h, s') /\
    (forall ids : list N,
       NoDup ids ->
       (forall i, i ∈ ids <->
          r_exists (record_at s i) = true /\
          r_departmentId (record_at s i) ∈ departmentIds /\
          recordType (record_at s i) = Expense /\
          (projectId = 0 \/ r_projectId (record_at s i) = projectId)) ->
       decrypt h
       = N_sum (map (fun i => decrypt (amount (record_at s i))) ids) mod 2 ^ 128) /\
    (forall i j : N,
       i <> j ->
       (forall k, selected Expense departmentIds projectId s k <-> k = i \/ k = j) ->
       decrypt (amount (record_at s i)) = 500 ->
       decrypt (amount (record_at s j)) = 300 ->
       decrypt h = 800).
Proof.
  intros Hreach Hcnt Hds. apply reachable_inv in Hreach.
  eexists _, _. split; [| split].
  - apply transact_ok. by apply calculateTotal_ok.
  - intros ids Hnd Hids. by apply decrypt_total_handle.
  - intros i j Hij Hsel Hi Hj.
    rewrite (decrypt_total_handle Expense departmentIds projectId s [i; j]); [| done | |].
    + simpl. rewrite Hi, Hj. reflexivity.
    + apply NoDup_cons. split; [by rewrite list_elem_of_singleton |].
      apply NoDup_singleton.
    + intros k. rewrite Hsel, elem_of_cons, list_elem_of_singleton. done.
Qed.

Lemma require_departments_fail (ds : list N) (s : Storage) (d : N) :
  d ∈ ds -> d_exists (department_at s d) = false ->
  require_departments ds s = (Revert "ShadowLedger: invalid department", s).
Proof.
  induction ds as [|d' ds IH]; intros Hin Hd; simpl.
  - by apply elem_of_nil in Hin.
  - monad_unfold. destruct (d_exists (department_at s d')) eqn:Hd'; [| done].
    apply IH; [| done].
    apply elem_of_cons in Hin as [->|?]; [congruence | done].
Qed.

Lemma filter_none {A} (P : A -> Prop) `{forall x, Decision (P x)} (l : list A) :
  (forall x, x ∈ l -> ~ P x) -> filter P l = [].
Proof.
  induction l as [|x l IH]; intros Hall; [done |].
  rewrite filter_cons_False by (apply Hall; left).
  apply IH. intros y Hy. apply Hall. by right.
Qed.

Lemma total_handle_nil (w : RecordType) (p : N) (s : Storage) :
  total_handle w [] p s = FHE_asEuint128 0.
Proof.
  unfold total_handle. rewrite filter_none; [done |].
  intros j _. unfold included. simpl. by rewrite andb_false_r.
Qed.

(** X15.  The two totals can be asked for by anybody.  One unknown id in
    [departmentIds] makes the call revert with "invalid department" before
    any record is looked at.  With every id known and the record counter
    below the overflow threshold the call succeeds whoever the sender is,
    returns the same handle to every sender, and writes nothing but two
    grants on that handle, to the contract and to the sender.  For an empty
    list of departments the handle decrypts to zero. *)
Theorem aggregation_by_anyone (s : Storage) (msg : Msg)
    (departmentIds : list N) (projectId : N) :
  ((exists d, d ∈ departmentIds /\ d_exists (department_at s d) = false) ->
   transact (calculateTotalIncome msg departmentIds projectId) s
   = (Revert "ShadowLedger: invalid department", s) /\
   transact (calculateTotalExpense msg departmentIds projectId) s
   = (Revert "ShadowLedger: invalid department", s)) /\
  ((forall d, d ∈ departmentIds -> d_exists (department_at s d) = true) ->
   _recordCounter s < max_uint256 ->
   exists hi he,
     (forall m : Msg,
        transact (calculateTotalIncome m departmentIds projectId) s
        = (Ok hi, set_acl ({[ (hi, sender m) ]} ∪ ({[ (hi, this) ]} ∪ acl s)) s) /\
        transact (calculateTotalExpense m departmentIds projectId) s
        = (Ok he, set_acl ({[ (he, sender m) ]} ∪ ({[ (he, this) ]} ∪ acl s)) s)) /\
     (departmentIds = [] -> decrypt hi = 0 /\ decrypt he = 0)).
Proof.
  split.
  - intros (d & Hin & Hd).
    split; apply (transact_revert _ s s);
      unfold calculateTotalIncome, calculateTotalExpense, calculateTotal;
      by rewrite (bind_revert _ _ _ _ _ (require_departments_fail _ s d Hin Hd)).
  - intros Hds Hlt.
    exists (total_handle Income departmentIds projectId s),
           (total_handle Expense departmentIds projectId s).
    split.
    + intros m. split; apply transact_ok; by apply calculateTotal_ok.
    + intros ->. by rewrite !total_handle_nil.
Qed.

Lemma FheSub_neq_left (a b : euint128) : FheSub a b <> a.
Proof.
  revert b. induction a as [| | |a1 IH1 a2 IH2|a1 IH1 a2 IH2]; intros b; try done.
  intros [= H1 H2]. by apply (IH1 a2).
Qed.

Lemma FheSub_neq_right (a b : euint128) : FheSub a b <> b.
Proof.
  revert a. induction b as [| | |b1 IH1 b2 IH2|b1 IH1 b2 IH2]; intros a; try done.
  intros [= H1 H2]. by apply (IH2 b1).
Qed.

(** X16.  A successful [calculateNetIncome] grants the difference to the
    sender and to the contract, and the two totals it computed on the way
    to the contract only, because it asks for them as the contract.  A
    sender other than the contract can therefore decrypt the net result,
    but holds no more grants on the totals than before the call.  The
    grants are all the call changes: departments, records, saved
    calculations, auditors, administrators, the reverse index and the three
    counters stay as they were. *)
Theorem calculateNetIncome_grants (s : Storage) (msg : Msg)
    (departmentIds : list N) (projectId : N) :
  _recordCounter s < max_uint256 ->
  (forall d, d ∈ departmentIds -> d_exists (department_at s d) = true) ->
  exists hi he net s',
    fst (transact (calculateTotalIncome msg departmentIds projectId) s) = Ok hi /\
    fst (transact (calculateTotalExpense msg departmentIds projectId) s) = Ok he /\
    transact (calculateNetIncome msg departmentIds projectId) s = (Ok net, s') /\
    net = FHE_sub hi he /\
    core s' = core s /\ _auditors s' = _auditors s /\
    _calculations s' = _calculations s /\
    _calculationCounter s' = _calculationCounter s /\
    s' = set_acl (acl s') s /\
    (forall h a,
       isAllowed s' h a = true <->
       isAllowed s h a = true \/
       (h = net /\ (a = sender msg \/ a = this)) \/
       ((h = hi \/ h = he) /\ a = this)) /\
    (sender msg <> this ->
     isAllowed s' net (sender msg) = true /\
     isAllowed s' hi (sender msg) = isAllowed s hi (sender msg) /\
     isAllowed s' he (sender msg) = isAllowed s he (sender msg)).
Proof.
  intros Hlt Hds.
  set (hi := total_handle Income departmentIds projectId s).
  set (he := total_handle Expense departmentIds projectId s).
  set (self := mkMsg this (block_timestamp msg)).
  set (s1 := set_acl ({[ (hi, sender self) ]} ∪ ({[ (hi, this) ]} ∪ acl s)) s).
  set (s2 := set_acl ({[ (he, sender self) ]} ∪ ({[ (he, this) ]} ∪ acl s1)) s1).
  set (s3 := set_acl ({[ (FHE_sub hi he, sender msg) ]} ∪
                      ({[ (FHE_sub hi he, this) ]} ∪ acl s2)) s2).
  assert (Hrun : calculateNetIncome msg departmentIds projectId s
                 = (Ok (FHE_sub hi he), s3)).
  { unfold calculateNetIncome, calculateTotalIncome, calculateTotalExpense.
    rewrite (bind_ok _ _ _ _ _ (calculateTotal_ok Income self _ projectId s Hds Hlt)).
    fold hi. fold s1.
    rewrite (bind_ok _ _ s1 s2 he); [reflexivity |].
    apply (calculateTotal_ok Expense self departmentIds projectId s1); done. }
  assert (Hacl : forall h a,
       isAllowed s3 h a = true <->
       isAllowed s h a = true \/
       (h = FHE_sub hi he /\ (a = sender msg \/ a = this)) \/
       ((h = hi \/ h = he) /\ a = this)).
  { intros h a. rewrite !isAllowed_true. unfold s3, s2, s1. simpl.
    rewrite !elem_of_union, !elem_of_singleton. clear. naive_solver. }
  exists hi, he, (FHE_sub hi he), s3.
  split.
  { unfold calculateTotalIncome.
    by rewrite (transact_ok _ _ _ _ (calculateTotal_ok Income msg _ projectId s Hds Hlt)). }
  split.
  { unfold calculateTotalExpense.
    by rewrite (transact_ok _ _ _ _ (calculateTotal_ok Expense msg _ projectId s Hds Hlt)). }
  split; [by apply transact_ok |].
  split; [done |]. split; [done |]. split; [done |]. split; [done |].
  split; [done |]. split; [done |].
  split; [exact Hacl |].
  intros Hne. split; [| split].
  - apply Hacl. auto.
  - apply eq_true_iff_eq. rewrite Hacl. split; [| auto].
    intros [?|[[Heq _]|[_ ?]]]; [done | | done].
    exfalso. symmetry in Heq. by apply FheSub_neq_left in Heq.
  - apply eq_true_iff_eq. rewrite Hacl. split; [| auto].
    intros [?|[[Heq _]|[_ ?]]]; [done | | done].
    exfalso. symmetry in Heq. by apply FheSub_neq_right in Heq.
Qed.

(** ** The calculation log *)

(** X17.  [saveCalculation] checks no role: below the overflow threshold of
    the calculation counter it succeeds, for any sender, exactly when the
    input proof verifies.  It returns the next calculation id, stores the
    calculation under it, grants the result to the contract and the sender,
    and leaves departments, records, the reverse index and the auditors
    alone; the description it is given is not stored. *)
Theorem saveCalculation_spec (s : Storage) (msg : Msg) (ty : RecordType)
    (enc : N) (pr : bytes) (ds ps : list uint256) (desc : string) :
  _calculationCounter s < max_uint256 ->
  ((exists id s',
      transact (saveCalculation msg ty enc pr ds ps desc) s = (Ok id, s')) <->
   inputVerifier enc pr this (sender msg) = true) /\
  (inputVerifier enc pr this (sender msg) = false ->
   transact (saveCalculation msg ty enc pr ds ps desc) s
   = (Revert "InvalidProof", s)) /\
  (forall id s',
     transact (saveCalculation msg ty enc pr ds ps desc) s = (Ok id, s') ->
     id = _calculationCounter s + 1 /\
     _calculationCounter s' = id /\
     _calculations s' !! id
     = Some (mkCalculation id ty (Verified enc) ds ps (block_timestamp msg) true) /\
     (forall j, j <> id -> _calculations s' !! j = _calculations s !! j) /\
     core s' = core s /\ _auditors s' = _auditors s /\
     (forall h a, isAllowed s' h a = true <->
        isAllowed s h a = true \/
        (h = Verified enc /\ (a = sender msg \/ a = this))) /\
     (forall desc' id' s'',
        transact (saveCalculation msg ty enc pr ds ps desc') s = (Ok id', s'') ->
        id' = id /\ s'' = s')).
Proof.
  intros Hlt.
  assert (Hrun : saveCalculation msg ty enc pr ds ps desc s =
    if inputVerifier enc pr this (sender msg)
    then (Ok (_calculationCounter s + 1),
          set_acl ({[ (Verified enc, sender msg) ]} ∪
                   ({[ (Verified enc, this) ]} ∪ acl s))
            (set_calculations
               (<[_calculationCounter s + 1 :=
                    mkCalculation (_calculationCounter s + 1) ty (Verified enc)
                      ds ps (block_timestamp msg) true]> (_calculations s))
               (set_calculationCounter (_calculationCounter s + 1) s)))
    else (Revert "InvalidProof", s)).
  { unfold saveCalculation, FHE_fromExternal, FHE_allowThis, FHE_allow.
    monad_unfold.
    destruct (inputVerifier enc pr this (sender msg)); [| done]. monad_unfold.
    by destruct (N.ltb_spec (_calculationCounter s) max_uint256); [| lia]. }
  assert (Hany : forall desc', saveCalculation msg ty enc pr ds ps desc' s
                               = saveCalculation msg ty enc pr ds ps desc s).
  { reflexivity. }
  split; [| split].
  - split.
    + intros (id & s' & Hok%transact_ok_inv). rewrite Hrun in Hok.
      by destruct (inputVerifier enc pr this (sender msg)).
    + intros Hv. rewrite Hv in Hrun. eexists _, _. by apply transact_ok.
  - intros Hv. rewrite Hv in Hrun. by eapply transact_revert.
  - intros id s' Hok%transact_ok_inv. rewrite Hrun in Hok.
    destruct (inputVerifier enc pr this (sender msg)) eqn:Hv; [| done].
    injection Hok as <- <-. simpl.
    split; [done |]. split; [done |]. split; [by rewrite lookup_insert_eq |].
    split; [intros j Hj; by rewrite lookup_insert_ne |].
    split; [done |]. split; [done |]. split.
    + intros h a. rewrite !isAllowed_true. simpl.
      rewrite !elem_of_union, !elem_of_singleton. split.
      * intros [[= -> ->]|[[= -> ->]|?]]; auto.
      * intros [?|[-> [->| ->]]]; auto.
    + intros desc' id' s'' Hok'%transact_ok_inv.
      rewrite Hany, Hrun in Hok'. by injection Hok' as <- <-.
Qed.

(** ** Auditor status *)

(** X18.  In a reachable state with the record counter below the overflow
    threshold, let the system admin make [p] an auditor and then remove it.
    Both calls succeed; afterwards every account has the auditor status it
    had before, the registry and the record store are as before, [p] is
    turned away by [getAllRecords] and a second removal is rejected, while
    [p] still holds the grant on the amount of every record. *)
Theorem auditor_status_round_trip (s : Storage) (msg : Msg) (p : address) :
  reachable s ->
  _recordCounter s < max_uint256 ->
  sender msg = _systemAdmin s -> p <> 0 -> auditor_at s p = false ->
  exists s1 s2,
    transact (addAuditor msg p) s = (Ok tt, s1) /\
    transact (removeAuditor msg p) s1 = (Ok tt, s2) /\
    (forall q, auditor_at s2 q = auditor_at s q) /\
    core s2 = core s /\
    (forall m off lim, sender m = p ->
       transact (getAllRecords m off lim) s2
       = (Revert "ShadowLedger: only auditor", s2)) /\
    transact (removeAuditor msg p) s2
    = (Revert "ShadowLedger: not an auditor", s2) /\
    (forall i, r_exists (record_at s i) = true ->
       r_exists (record_at s2 i) = true /\
       isAllowed s2 (amount (record_at s2 i)) p = true).
Proof.
  intros Hreach Hlt Hs Hp Ha.
  pose proof (reachable_inv s Hreach) as Hinv.
  set (s1 := grant_all p (record_ids s)
               (set_auditors (<[p := true]> (_auditors s)) s)).
  set (s2 := set_auditors (<[p := false]> (_auditors s1)) s1).
  assert (Hframe : s1 = set_acl (acl s1) (set_auditors (<[p := true]> (_auditors s)) s)).
  { apply grant_all_frame. }
  assert (Haud2 : forall q, auditor_at s2 q = auditor_at s q).
  { intros q. unfold s2, auditor_at. simpl. rewrite Hframe. simpl.
    destruct (decide (q = p)) as [->|Hq].
    - rewrite lookup_insert_eq. simpl. symmetry. exact Ha.
    - by rewrite !lookup_insert_ne. }
  exists s1, s2.
  split; [apply transact_ok; by apply addAuditor_ok |].
  split.
  { assert (Hs1 : sender msg = _systemAdmin s1) by (by rewrite Hframe).
    assert (Ha1 : auditor_at s1 p = true).
    { unfold auditor_at. rewrite Hframe. simpl. by rewrite lookup_insert_eq. }
    apply transact_ok. unfold removeAuditor, onlySystemAdmin. monad_unfold.
    rewrite Hs1, N.eqb_refl, Ha1. reflexivity. }
  split; [exact Haud2 |].
  split; [unfold s2; rewrite Hframe; reflexivity |].
  split.
  { intros m off lim Hm. apply (transact_revert _ s2 s2).
    unfold getAllRecords, onlyAuditor. monad_unfold.
    by rewrite Hm, Haud2, Ha. }
  split.
  { apply (transact_revert _ s2 s2).
    unfold removeAuditor, onlySystemAdmin. monad_unfold.
    replace (_systemAdmin s2) with (_systemAdmin s)
      by (unfold s2; rewrite Hframe; reflexivity).
    by rewrite Hs, N.eqb_refl, Haud2, Ha. }
  intros i Hi.
  assert (Hrec : record_at s2 i = record_at s i).
  { unfold s2. rewrite Hframe. reflexivity. }
  rewrite Hrec. split; [done |].
  apply isAllowed_true. change (acl s2) with (acl s1). unfold s1.
  apply grant_all_acl. right. split; [done |]. exists i.
  split; [| done]. apply elem_of_record_ids. by apply (inv_records s Hinv).
Qed.

End ShadowLedger.

(** ** A concrete deployment *)

(** The deployment of the test suite: the contract at a fixed address, an
    input verifier that accepts every proof, and ciphertext handles that
    encrypt their own number. *)
Module Deployment.

Definition ledger : address := 1000.
Definition accept_all (h : N) (inputProof : bytes) (contract user : address)
  : bool := true.
Definition own_number (h : N) : N := h.

Definition deployer : address := 1.
Definition alice : address := 2.
Definition bob : address := 3.
Definition charlie : address := 4.

Definition from (a : address) : Msg := mkMsg a 1700000000.

Definition call (a : address) (c : Call) (s : Storage) : Storage :=
  snd (transact (exec ledger accept_all (from a) c) s).

(** Deployment, then the departments Engineering (2, admin alice) and
    Sales (3, admin bob). *)
Definition deployed : Storage := constructor (from deployer).
Definition with_engineering : Storage :=
  call deployer (CreateDepartment "Engineering" alice) deployed.
Definition with_sales : Storage :=
  call deployer (CreateDepartment "Sales" bob) with_engineering.

(** An income of 1000 in Engineering and one of 2000 in Sales. *)
Definition one_income : Storage :=
  call alice (CreateRecord Income 1000 [] 2 0 "Income 1") with_sales.
Definition two_incomes : Storage :=
  call bob (CreateRecord Income 2000 [] 3 0 "Income 2") one_income.

(** An income of 1000 and an expense of 500 in Engineering. *)
Definition income_and_expense : Storage :=
  call alice (CreateRecord Expense 500 [] 2 0 "Expense") one_income.

(** bob joins Engineering and records an income there. *)
Definition bob_in_engineering : Storage :=
  call alice (AddDepartmentMember 2 bob) with_engineering.
Definition bob_recorded : Storage :=
  call bob (CreateRecord Income 1000 [] 2 0 "Income by bob") bob_in_engineering.

(** charlie is an auditor. *)
Definition with_auditor : Storage := call deployer (AddAuditor charlie) two_incomes.

Lemma reachable_call_ (a : address) (c : Call) (s : Storage) :
  reachable ledger accept_all s -> reachable ledger accept_all (call a c s).
Proof. apply reachable_call. Defined.

Lemma reachable_deployed : reachable ledger accept_all deployed.
Proof. apply reachable_deploy. Defined.

Lemma reachable_two_incomes : reachable ledger accept_all two_incomes.
Proof. do 4 apply reachable_call_. apply reachable_deployed. Defined.

Lemma reachable_income_and_expense : reachable ledger accept_all income_and_expense.
Proof. do 4 apply reachable_call_. apply reachable_deployed. Defined.

Lemma reachable_bob_in_engineering :
  reachable ledger accept_all bob_in_engineering.
Proof. do 2 apply reachable_call_. apply reachable_deployed. Defined.

Lemma reachable_with_auditor : reachable ledger accept_all with_auditor.
Proof. apply reachable_call_, reachable_two_incomes. Defined.

End Deployment.

Import Deployment.

(** C1.  bob, a member of Engineering who is not its admin, creates a
    record there.  The call succeeds and the amount is granted to bob and to
    the contract, but not to alice, the admin of the department: the branch
    of [createRecord] that looks at the department admin fires only when the
    admin is the sender, and then grants the sender a second time. *)
Theorem createRecord_skips_department_admin :
  departmentAdmin_at bob_in_engineering 2 = alice /\
  admin (department_at bob_in_engineering 2) = alice /\
  alice <> bob /\
  transact (createRecord ledger accept_all (from bob) Income 1000 [] 2 0
              "Income by bob") bob_in_engineering
    = (Ok 1, bob_recorded) /\
  amount (record_at bob_recorded 1) = Verified 1000 /\
  creator (record_at bob_recorded 1) = bob /\
  isAllowed bob_recorded (Verified 1000) bob = true /\
  isAllowed bob_recorded (Verified 1000) ledger = true /\
  isAllowed bob_recorded (Verified 1000) alice = false.
Proof. by vm_compute. Qed.

(** C8.  In the state the constructor leaves, the System department exists
    and its admin is the deployer, but its member list is empty: the
    constructor does not insert the admin as [createDepartment] does. *)
Theorem constructor_leaves_system_admin_unlisted (msg : Msg) :
  reachable ledger accept_all (constructor msg) /\
  d_exists (department_at (constructor msg) 1) = true /\
  admin (department_at (constructor msg) 1) = sender msg /\
  members (department_at (constructor msg) 1) = [] /\
  admin (department_at (constructor msg) 1) ∉ members (department_at (constructor msg) 1).
Proof.
  split; [apply reachable_deploy |].
  repeat split. apply not_elem_of_nil.
Qed.

(** ** The theorems at the deployment *)

Lemma removeAuditor_only_clears_status_witness :
  sender (from deployer) = _systemAdmin with_auditor /\
  auditor_at with_auditor charlie = true /\
  exists s',
    transact (removeAuditor (from deployer) charlie) with_auditor = (Ok tt, s') /\
    auditor_at s' charlie = false /\
    acl s' = acl with_auditor /\
    isAllowed s' (Verified 1000) charlie = true.
Proof.
  split; [reflexivity |]. split; [by vm_compute |].
  destruct (removeAuditor_only_clears_status with_auditor (from deployer) charlie)
    as (s' & Hrun & Hs' & _ & Hacl & Hallowed & _).
  - reflexivity.
  - by vm_compute.
  - exists s'. split; [exact Hrun |]. split; [| split; [exact Hacl |]].
    + rewrite Hs'. by vm_compute.
    + rewrite Hallowed. by vm_compute.
Defined.

Lemma removeDepartmentMember_admin_fails_witness :
  d_exists (department_at with_engineering 2) = true /\
  exists e,
    transact (removeDepartmentMember (from alice) 2 alice) with_engineering
    = (Revert e, with_engineering).
Proof.
  split; [by vm_compute |].
  destruct (removeDepartmentMember_admin_fails with_engineering (from alice) 2)
    as (e & _ & Hrun & _).
  - by vm_compute.
  - exists e. exact Hrun.
Defined.

Lemma two_incomes_departments (d : N) :
  d ∈ [2; 3] -> d_exists (department_at two_incomes d) = true.
Proof.
  intros [->|[->|[]%elem_of_nil]%elem_of_cons]%elem_of_cons; by vm_compute.
Defined.

Lemma calculateTotalIncome_sums_witness :
  _recordCounter two_incomes < max_uint256 /\
  exists h s',
    transact (calculateTotalIncome ledger (from alice) [2; 3] 0) two_incomes
    = (Ok h, s') /\
    decrypt own_number h = 3000.
Proof.
  split; [by vm_compute |].
  destruct (calculateTotalIncome_sums ledger accept_all own_number two_incomes
              (from alice) [2; 3] 0)
    as (h & s' & Hrun & _ & Hparticular).
  - apply reachable_two_incomes.
  - by vm_compute.
  - apply two_incomes_departments.
  - exists h, s'. split; [exact Hrun |].
    apply (Hparticular 1 2); [done | | by vm_compute | by vm_compute].
    intros k. split.
    + intros [Hex _].
      apply (inv_records _ (reachable_inv _ _ _ reachable_two_incomes)) in Hex.
      change (_recordCounter two_incomes) with 2 in Hex. lia.
    + intros [->| ->]; apply included_selected; by vm_compute.
Defined.

Lemma income_and_expense_departments (d : N) :
  d ∈ [2] -> d_exists (department_at income_and_expense d) = true.
Proof. intros ->%list_elem_of_singleton. by vm_compute. Defined.

Lemma calculateNetIncome_wraps_witness :
  _recordCounter income_and_expense < max_uint256 /\
  exists h s',
    transact (calculateNetIncome ledger (from alice) [2] 0) income_and_expense
    = (Ok h, s') /\
    decrypt own_number h = 500.
Proof.
  split; [by vm_compute |].
  destruct (calculateNetIncome_wraps ledger own_number income_and_expense
              (from alice) [2] 0)
    as (hi & he & h & si & se & s' & Hi & He & Hrun & _ & Hsub & _).
  - by vm_compute.
  - apply income_and_expense_departments.
  - exists h, s'. split; [exact Hrun |].
    apply transact_ok_inv in Hi, He.
    vm_compute in Hi, He.
    injection Hi as <- _. injection He as <- _.
    rewrite Hsub; by vm_compute.
Defined.

Lemma addAuditor_grants_existing_witness :
  _recordCounter two_incomes < max_uint256 /\
  exists s',
    transact (addAuditor (from deployer) charlie) two_incomes = (Ok tt, s') /\
    auditor_at s' charlie = true /\
    isAllowed s' (Verified 1000) charlie = true /\
    isAllowed s' (Verified 2000) charlie = true.
Proof.
  split; [by vm_compute |].
  destruct (addAuditor_grants_existing ledger accept_all two_incomes
              (from deployer) charlie)
    as (Hiff & Hgrants & _).
  - apply reachable_two_incomes.
  - by vm_compute.
  - destruct (proj2 Hiff) as [s' Hrun]; [by vm_compute |].
    destruct (Hgrants s' Hrun) as (Haud & _ & _ & Hall & _).
    exists s'. split; [exact Hrun |]. split; [exact Haud |].
    split; [apply (Hall 1) | apply (Hall 2)]; by vm_compute.
Defined.

Lemma getDepartmentRecords_page_witness :
  _recordCounter two_incomes < max_uint256 /\
  _isDepartmentMember two_incomes (sender (from alice)) 2 = true /\
  10 <= max_uint64 /\
  transact (getDepartmentRecords (from alice) 2 0 10) two_incomes
  = (Ok [1], two_incomes) /\
  max_uint64 < 2 ^ 64 /\
  transact (getDepartmentRecords (from alice) 2 0 (2 ^ 64)) two_incomes
  = (Revert "Panic(0x41)", two_incomes).
Proof.
  split; [by vm_compute |]. split; [by vm_compute |].
  split; [by vm_compute |].
  destruct (getDepartmentRecords_page ledger accept_all two_incomes
              (from alice) 2 0 10)
    as (_ & Hpage);
    [apply reachable_two_incomes | by vm_compute | by vm_compute |].
  destruct (getDepartmentRecords_page ledger accept_all two_incomes
              (from alice) 2 0 (2 ^ 64))
    as (Hpanic & _);
    [apply reachable_two_incomes | by vm_compute | by vm_compute |].
  split; [| split; [by vm_compute |]].
  - destruct Hpage as (ids & Hrun & Hids & _); [by vm_compute |].
    rewrite Hrun, Hids. by vm_compute.
  - apply Hpanic. by vm_compute.
Defined.

(** C6 as the spec states it, at [limit = 2^64]: alice is a member of
    department 2, which has one record, so with [offset = 0] the claim
    promises [min (2^64) (1 - 0) = 1] id; the call returns none, it
    reverts. *)
Lemma getDepartmentRecords_page_counterexample :
  _recordCounter two_incomes < max_uint256 /\
  _isDepartmentMember two_incomes (sender (from alice)) 2 = true /\
  department_record_ids two_incomes 2 = [1] /\
  transact (getDepartmentRecords (from alice) 2 0 (2 ^ 64)) two_incomes
  = (Revert "Panic(0x41)", two_incomes) /\
  ~ (exists ids,
       fst (transact (getDepartmentRecords (from alice) 2 0 (2 ^ 64))
              two_incomes) = Ok ids /\
       N.of_nat (length ids) = N.min (2 ^ 64) (1 - 0)).
Proof.
  assert (Hrun : transact (getDepartmentRecords (from alice) 2 0 (2 ^ 64))
                   two_incomes = (Revert "Panic(0x41)", two_incomes)).
  { apply (transact_revert _ two_incomes two_incomes).
    unfold getDepartmentRecords.
    rewrite (bind_ok _ _ two_incomes two_incomes tt) by (by vm_compute).
    rewrite (bind_ok _ _ two_incomes two_incomes tt) by (by vm_compute).
    apply scan_records_panic. by vm_compute. }
  split; [by vm_compute |]. split; [by vm_compute |].
  split; [by vm_compute |]. split; [exact Hrun |].
  intros (ids & Hids & _). by rewrite Hrun in Hids.
Qed.

Lemma system_department_missing_from_index_witness :
  _isDepartmentMember two_incomes deployer 1 = true /\
  exists l, getUserDepartments deployer two_incomes = (Ok l, two_incomes) /\ 1 ∉ l.
Proof.
  destruct (system_department_missing_from_index ledger accept_all two_incomes)
    as (Hmem & Hindex & _).
  - apply reachable_two_incomes.
  - split; [exact Hmem | exact Hindex].
Defined.

(** ** The further properties at the deployment *)

(** An expense of 500 in Engineering and one of 300 in Sales, after the two
    incomes. *)
Definition one_expense : Storage :=
  call alice (CreateRecord Expense 500 [] 2 0 "Expense 1") two_incomes.
Definition two_expenses : Storage :=
  call bob (CreateRecord Expense 300 [] 3 0 "Expense 2") one_expense.

Lemma reachable_two_expenses : reachable ledger accept_all two_expenses.
Proof. do 2 apply reachable_call_. apply reachable_two_incomes. Defined.

Lemma reachable_with_sales : reachable ledger accept_all with_sales.
Proof. do 2 apply reachable_call_. apply reachable_deployed. Defined.

Lemma reachable_one_income : reachable ledger accept_all one_income.
Proof. apply reachable_call_, reachable_with_sales. Defined.

Lemma reachable_with_engineering : reachable ledger accept_all with_engineering.
Proof. apply reachable_call_, reachable_deployed. Defined.

Lemma grants_never_revoked_witness :
  isAllowed two_incomes (Verified 1000) alice = true /\
  isAllowed with_auditor (Verified 1000) alice = true.
Proof.
  split; [by vm_compute |].
  apply (grants_never_revoked ledger accept_all two_incomes (from deployer)
           (AddAuditor charlie)).
  by vm_compute.
Defined.

Lemma transactions_preserve_identity_witness :
  record_at income_and_expense 1 = record_at one_income 1 /\
  name (department_at income_and_expense 2) = name (department_at one_income 2).
Proof.
  destruct (transactions_preserve_identity ledger accept_all one_income
              (from alice) (CreateRecord Expense 500 [] 2 0 "Expense"))
    as (_ & Hrec & Hdept & _).
  - apply reachable_one_income.
  - split.
    + apply Hrec. by vm_compute.
    + apply Hdept. by vm_compute.
Defined.

Lemma records_well_formed_witness :
  r_id (record_at two_incomes 2) = 2 /\
  isAllowed two_incomes (amount (record_at two_incomes 2))
    (creator (record_at two_incomes 2)) = true.
Proof.
  destruct (records_well_formed ledger accept_all two_incomes 2)
    as (_ & Hwf).
  - apply reachable_two_incomes.
  - destruct Hwf as (Hid & _ & _ & _ & Hgrant & _); [by vm_compute |].
    split; [exact Hid | exact Hgrant].
Defined.

Lemma departments_dense_witness :
  getDepartment 3 with_sales
  = (Ok (3, name (department_at with_sales 3), members (department_at with_sales 3),
         admin (department_at with_sales 3), createdAt (department_at with_sales 3)),
     with_sales) /\
  getDepartment 4 with_sales = (Revert "ShadowLedger: invalid department", with_sales).
Proof.
  destruct (departments_dense ledger accept_all with_sales 3) as (_ & _ & Hin & _);
    [apply reachable_with_sales |].
  destruct (departments_dense ledger accept_all with_sales 4) as (_ & _ & _ & Hout);
    [apply reachable_with_sales |].
  split.
  - apply Hin. by vm_compute.
  - apply Hout. vm_compute. by intros [_ ?].
Defined.

Lemma reverse_index_consistent_witness :
  2 ∈ userDepartments_at bob_in_engineering bob /\
  _isDepartmentMember bob_in_engineering bob 2 = true.
Proof.
  destruct (reverse_index_consistent ledger accept_all bob_in_engineering bob 2)
    as (_ & _ & Hiff & Hmem).
  - apply reachable_bob_in_engineering.
  - assert (Hin : 2 ∈ userDepartments_at bob_in_engineering bob).
    { apply Hiff.
      replace (members (department_at bob_in_engineering 2)) with [alice; bob]
        by (by vm_compute).
      apply elem_of_cons. right. apply elem_of_cons. by left. }
    split; [exact Hin |]. apply Hmem. by left.
Defined.

Lemma createDepartment_spec_witness :
  _departmentCounter deployed < max_uint256 /\
  exists id s',
    transact (createDepartment (from deployer) "Engineering" alice) deployed
    = (Ok id, s') /\
    id = 2 /\
    getDepartment id s' = (Ok (id, "Engineering", [alice], alice, 1700000000), s').
Proof.
  split; [by vm_compute |].
  destruct (createDepartment_spec deployed (from deployer) "Engineering" alice)
    as (Hiff & Hpost & _); [by vm_compute |].
  destruct (proj2 Hiff) as (id & s' & Hrun); [by vm_compute |].
  destruct (Hpost id s' Hrun) as (Hid & _ & Hget & _).
  exists id, s'. split; [exact Hrun |]. split; [exact Hid | exact Hget].
Defined.

Lemma removeDepartmentMember_removes_witness :
  departmentAdmin_at bob_in_engineering 2 = sender (from alice) /\
  exists s',
    transact (removeDepartmentMember (from alice) 2 bob) bob_in_engineering
    = (Ok tt, s') /\
    (bob ∉ members (department_at s' 2)) /\
    _isDepartmentMember s' bob 2 = false.
Proof.
  split; [by vm_compute |].
  destruct (removeDepartmentMember_removes ledger accept_all bob_in_engineering
              (from alice) 2 bob) as (_ & Hrem).
  - apply reachable_bob_in_engineering.
  - by vm_compute.
  - by vm_compute.
  - destruct Hrem as (s' & Hrun & _ & Hnot & _ & _ & Hmem & _);
      [by vm_compute | by vm_compute |].
    exists s'. split; [exact Hrun |]. split; [exact Hnot | exact Hmem].
Defined.

Lemma add_then_remove_restores_witness :
  exists s2,
    transact (removeDepartmentMember (from alice) 2 bob) bob_in_engineering
    = (Ok tt, s2) /\
    (forall d, department_at s2 d = department_at with_engineering d) /\
    (forall u, userDepartments_at s2 u = userDepartments_at with_engineering u) /\
    _calculationCounter s2 = _calculationCounter with_engineering.
Proof.
  destruct (add_then_remove_restores ledger accept_all with_engineering
              bob_in_engineering (from alice) (from alice) 2 bob)
    as (s2 & Hrun & Hdept & Hidx & _ & _ & _ & _ & _ & _ & _ & Hcalc & _).
  - apply reachable_with_engineering.
  - reflexivity.
  - by vm_compute.
  - exists s2. split; [exact Hrun |].
    split; [exact Hdept | split; [exact Hidx | exact Hcalc]].
Defined.

Lemma getRecord_access_witness :
  transact (getRecord (from alice) 1) two_incomes
  = (Ok (record_at two_incomes 1), two_incomes) /\
  transact (getRecord (from alice) 2) two_incomes
  = (Revert "ShadowLedger: access denied", two_incomes) /\
  transact (getRecord (from alice) 3) two_incomes
  = (Revert "ShadowLedger: invalid record", two_incomes).
Proof.
  destruct (getRecord_access ledger accept_all two_incomes (from alice) 1)
    as (_ & H1); [apply reachable_two_incomes |].
  destruct (getRecord_access ledger accept_all two_incomes (from alice) 2)
    as (_ & H2); [apply reachable_two_incomes |].
  destruct (getRecord_access ledger accept_all two_incomes (from alice) 3)
    as (H3 & _); [apply reachable_two_incomes |].
  split; [| split].
  - destruct H1 as (_ & Hok & _); [by vm_compute |]. apply Hok. left. by vm_compute.
  - destruct H2 as (_ & _ & Hdenied); [by vm_compute |].
    apply Hdenied; by vm_compute.
  - apply H3. vm_compute. by intros [_ ?].
Defined.

Lemma getAllRecords_page_witness :
  _recordCounter with_auditor < max_uint256 /\
  10 <= max_uint64 /\
  max_uint64 < 2 ^ 64 /\
  transact (getAllRecords (from charlie) 0 10) with_auditor
  = (Ok [1; 2], with_auditor) /\
  transact (getAllRecords (from charlie) 1 10) with_auditor
  = (Ok [2], with_auditor) /\
  transact (getAllRecords (from charlie) 0 (2 ^ 64)) with_auditor
  = (Revert "Panic(0x41)", with_auditor) /\
  transact (getAllRecords (from alice) 0 10) with_auditor
  = (Revert "ShadowLedger: only auditor", with_auditor).
Proof.
  split; [by vm_compute |]. split; [by vm_compute |]. split; [by vm_compute |].
  destruct (getAllRecords_page ledger accept_all with_auditor (from charlie) 0 10)
    as (_ & _ & H0); [apply reachable_with_auditor | by vm_compute |].
  destruct (getAllRecords_page ledger accept_all with_auditor (from charlie) 1 10)
    as (_ & _ & H1); [apply reachable_with_auditor | by vm_compute |].
  destruct (getAllRecords_page ledger accept_all with_auditor (from charlie) 0
              (2 ^ 64))
    as (_ & Hpanic & _); [apply reachable_with_auditor | by vm_compute |].
  destruct (getAllRecords_page ledger accept_all with_auditor (from alice) 0 10)
    as (Hno & _); [apply reachable_with_auditor | by vm_compute |].
  split; [| split; [| split]].
  - rewrite H0 by (by vm_compute). by vm_compute.
  - rewrite H1 by (by vm_compute). by vm_compute.
  - apply Hpanic; by vm_compute.
  - apply Hno. by vm_compute.
Defined.

Lemma createRecord_spec_witness :
  _recordCounter with_sales < max_uint256 /\
  exists id s',
    transact (createRecord ledger accept_all (from alice) Income 1000 [] 2 0
                "Income 1") with_sales = (Ok id, s') /\
    id = 1 /\
    getRecord (from alice) id s' = (Ok (record_at s' id), s') /\
    creator (record_at s' id) = alice.
Proof.
  split; [by vm_compute |].
  destruct (createRecord_spec ledger accept_all with_sales (from alice) Income
              1000 [] 2 0 "Income 1") as (Hiff & Hpost); [by vm_compute |].
  destruct (proj2 Hiff) as (id & s' & Hrun); [by vm_compute |].
  destruct (Hpost id s' Hrun) as (Hid & _ & Hrec & Hget & _).
  exists id, s'. split; [exact Hrun |]. split; [exact Hid |].
  split; [exact Hget |]. by rewrite Hrec.
Defined.

Lemma addDepartmentMember_spec_witness :
  (exists s',
     transact (addDepartmentMember (from alice) 2 bob) with_engineering
     = (Ok tt, s') /\
     members (department_at s' 2) = members (department_at with_engineering 2) ++ [bob]) /\
  transact (addDepartmentMember (from alice) 2 alice) with_engineering
  = (Revert "ShadowLedger: already member", with_engineering).
Proof.
  destruct (addDepartmentMember_spec with_engineering (from alice) 2 bob)
    as (Hiff & Hpost & _).
  destruct (addDepartmentMember_spec with_engineering (from alice) 2 alice)
    as (_ & _ & Halready).
  split.
  - destruct (proj2 Hiff) as (s' & Hrun); [by vm_compute |].
    exists s'. split; [exact Hrun |]. apply (Hpost s' Hrun).
  - apply Halready; by vm_compute.
Defined.

Lemma validDepartment_never_fires_witness :
  d_exists (department_at with_sales 7) = false /\
  transact (createRecord ledger accept_all (from alice) Income 1000 [] 7 0
              "Income") with_sales
  = (Revert "ShadowLedger: only department member", with_sales).
Proof.
  split; [by vm_compute |].
  destruct (validDepartment_never_fires ledger accept_all with_sales (from alice)
              Income 1000 [] 7 0 0 10 "Income") as (Hnon & Hmem & _).
  apply Hnon. apply Hmem. by vm_compute.
Defined.

Lemma two_expenses_departments (d : N) :
  d ∈ [2; 3] -> d_exists (department_at two_expenses d) = true.
Proof.
  intros [->|[->|[]%elem_of_nil]%elem_of_cons]%elem_of_cons; by vm_compute.
Defined.

Lemma calculateTotalExpense_sums_witness :
  _recordCounter two_expenses < max_uint256 /\
  exists h s',
    transact (calculateTotalExpense ledger (from alice) [2; 3] 0) two_expenses
    = (Ok h, s') /\
    decrypt own_number h = 800.
Proof.
  split; [by vm_compute |].
  destruct (calculateTotalExpense_sums ledger accept_all own_number two_expenses
              (from alice) [2; 3] 0)
    as (h & s' & Hrun & _ & Hparticular).
  - apply reachable_two_expenses.
  - by vm_compute.
  - apply two_expenses_departments.
  - exists h, s'. split; [exact Hrun |].
    apply (Hparticular 3 4); [done | | by vm_compute | by vm_compute].
    intros k. split.
    + intros Hsel.
      assert (Hex : r_exists (record_at two_expenses k) = true) by apply Hsel.
      apply (inv_records _ (reachable_inv _ _ _ reachable_two_expenses)) in Hex.
      change (_recordCounter two_expenses) with 4 in Hex.
      assert (Hk : k = 1 \/ k = 2 \/ k = 3 \/ k = 4) by lia.
      destruct Hk as [->|[->|[->| ->]]]; [| | by left | by right].
      * apply included_selected in Hsel. by vm_compute in Hsel.
      * apply included_selected in Hsel. by vm_compute in Hsel.
    + intros [->| ->]; apply included_selected; by vm_compute.
Defined.

Lemma aggregation_by_anyone_witness :
  transact (calculateTotalIncome ledger (from charlie) [2; 9] 0) two_incomes
  = (Revert "ShadowLedger: invalid department", two_incomes) /\
  exists h s',
    transact (calculateTotalIncome ledger (from charlie) [] 0) two_incomes
    = (Ok h, s') /\
    decrypt own_number h = 0.
Proof.
  destruct (aggregation_by_anyone ledger own_number two_incomes (from charlie)
              [2; 9] 0) as (Hbad & _).
  destruct (aggregation_by_anyone ledger own_number two_incomes (from charlie)
              [] 0) as (_ & Hgood).
  split.
  - apply Hbad. exists 9. split; [| by vm_compute].
    apply elem_of_cons. right. apply elem_of_cons. by left.
  - destruct Hgood as (hi & he & Hrun & Hzero).
    + by intros d ?%elem_of_nil.
    + by vm_compute.
    + exists hi. eexists. split; [apply (Hrun (from charlie)) |].
      by apply Hzero.
Defined.

Lemma calculateNetIncome_grants_witness :
  _recordCounter income_and_expense < max_uint256 /\
  exists hi net s',
    fst (transact (calculateTotalIncome ledger (from alice) [2] 0)
           income_and_expense) = Ok hi /\
    transact (calculateNetIncome ledger (from alice) [2] 0) income_and_expense
    = (Ok net, s') /\
    _calculationCounter s' = _calculationCounter income_and_expense /\
    isAllowed s' net alice = true /\
    isAllowed s' hi alice = false.
Proof.
  split; [by vm_compute |].
  destruct (calculateNetIncome_grants ledger income_and_expense (from alice) [2] 0)
    as (hi & he & net & s' & Hi & _ & Hrun & _ & _ & _ & _ & Hcalc & _ & _
        & Hcaller).
  - by vm_compute.
  - apply income_and_expense_departments.
  - destruct Hcaller as (Hnet & Hhi & _); [by vm_compute |].
    exists hi, net, s'. split; [exact Hi |]. split; [exact Hrun |].
    split; [exact Hcalc |]. split; [exact Hnet |].
    transitivity (isAllowed income_and_expense hi alice); [exact Hhi |].
    vm_compute in Hi. injection Hi as <-. by vm_compute.
Defined.

Lemma saveCalculation_spec_witness :
  _calculationCounter deployed < max_uint256 /\
  exists id s',
    transact (saveCalculation ledger accept_all (from bob) Income 3000 [] [2; 3]
                [0] "Total income") deployed = (Ok id, s') /\
    id = 1 /\
    isAllowed s' (Verified 3000) bob = true.
Proof.
  split; [by vm_compute |].
  destruct (saveCalculation_spec ledger accept_all deployed (from bob) Income
              3000 [] [2; 3] [0] "Total income") as (Hiff & _ & Hpost);
    [by vm_compute |].
  destruct (proj2 Hiff) as (id & s' & Hrun); [by vm_compute |].
  destruct (Hpost id s' Hrun) as (Hid & _ & _ & _ & _ & _ & Hacl & _).
  exists id, s'. split; [exact Hrun |]. split; [exact Hid |].
  apply Hacl. right. split; [done |]. by left.
Defined.

Lemma auditor_status_round_trip_witness :
  _recordCounter two_incomes < max_uint256 /\
  exists s1 s2,
    transact (addAuditor (from deployer) charlie) two_incomes = (Ok tt, s1) /\
    transact (removeAuditor (from deployer) charlie) s1 = (Ok tt, s2) /\
    auditor_at s2 charlie = false /\
    isAllowed s2 (Verified 1000) charlie = true.
Proof.
  split; [by vm_compute |].
  destruct (auditor_status_round_trip ledger accept_all two_incomes
              (from deployer) charlie)
    as (s1 & s2 & Hadd & Hrem & Haud & _ & _ & _ & Hgrants).
  - apply reachable_two_incomes.
  - by vm_compute.
  - by vm_compute.
  - done.
  - by vm_compute.
  - exists s1, s2. split; [exact Hadd |]. split; [exact Hrem |]. split.
    + rewrite Haud. by vm_compute.
    + destruct (Hgrants 1) as [_ Hg]; [by vm_compute |].
      assert (Hrec : record_at s2 1 = record_at two_incomes 1).
      { apply transact_ok_inv in Hadd, Hrem.
        vm_compute in Hadd. injection Hadd as <-.
        vm_compute in Hrem. injection Hrem as <-. by vm_compute. }
      rewrite Hrec in Hg. exact Hg.
Defined.
